(** * The HTCL lexer ([src/lexer.ts]): a shallow embedding and its properties

    The tokenizer turns source text into a flat list of tokens.  It keeps a
    cursor [src] (an array of one-character strings, consumed from the front
    with [shift]) and an output array [tokens] (extended with [push]).

    Source text is a Rocq [string]; each [ascii] stands for the UTF-16 code
    unit with the same number, so the inputs covered are the texts over
    U+0000..U+00FF.  The built-ins the lexer relies on ([toUpperCase],
    [toLowerCase], [parseInt], [Number], the regular expression [\s]) are
    written out for that range. *)

From Stdlib Require Import List String Ascii Bool Arith NArith Lia.
Import ListNotations.
Open Scope string_scope.
Open Scope list_scope.

(** ** The token taxonomy *)

Module TokenType.

(** [export enum TokenType], in declaration order.  [Type] is reserved in
    Rocq, so that enumerant is written [Type_]. *)
Inductive t : Set :=
| Number | Name | StringLiteral | Identifier | OpenParen | CloseParen
| BinaryOperator | OpenBracket | CloseBracket | EndBracket | Equals
| Let | Const | Args | Arg | Return | Counter | Type_ | SelfClosingTag
| While | For | If | ElseIf | Else | From | To | Condition
| OpenBrace | CloseBrace | Comment
| StartTemplateString | EndTemplateString
| StartInterpolation | EndInterpolation.

Definition all : list t :=
  [ Number; Name; StringLiteral; Identifier; OpenParen; CloseParen;
    BinaryOperator; OpenBracket; CloseBracket; EndBracket; Equals;
    Let; Const; Args; Arg; Return; Counter; Type_; SelfClosingTag;
    While; For; If; ElseIf; Else; From; To; Condition;
    OpenBrace; CloseBrace; Comment;
    StartTemplateString; EndTemplateString;
    StartInterpolation; EndInterpolation ].

(** The enumerant's name: the reverse mapping [TokenType[n]] of a
    TypeScript numeric enum. *)
Definition name (k : t) : string :=
  match k with
  | Number => "Number" | Name => "Name" | StringLiteral => "StringLiteral"
  | Identifier => "Identifier" | OpenParen => "OpenParen"
  | CloseParen => "CloseParen" | BinaryOperator => "BinaryOperator"
  | OpenBracket => "OpenBracket" | CloseBracket => "CloseBracket"
  | EndBracket => "EndBracket" | Equals => "Equals" | Let => "Let"
  | Const => "Const" | Args => "Args" | Arg => "Arg" | Return => "Return"
  | Counter => "Counter" | Type_ => "Type"
  | SelfClosingTag => "SelfClosingTag" | While => "While" | For => "For"
  | If => "If" | ElseIf => "ElseIf" | Else => "Else" | From => "From"
  | To => "To" | Condition => "Condition" | OpenBrace => "OpenBrace"
  | CloseBrace => "CloseBrace" | Comment => "Comment"
  | StartTemplateString => "StartTemplateString"
  | EndTemplateString => "EndTemplateString"
  | StartInterpolation => "StartInterpolation"
  | EndInterpolation => "EndInterpolation"
  end.

End TokenType.

(** ** JavaScript strings as sequences of UTF-16 code units

    Upper-casing a character of U+0000..U+00FF can leave that range, so the
    results of [toUpperCase] and [toLowerCase], and the property keys built
    from them, are sequences of code units. *)

Definition jsstring := list N.

Definition code (c : ascii) : N := N_of_ascii c.

Definition units (s : string) : jsstring := map code (list_ascii_of_string s).

Fixpoint jsstring_eqb (a b : jsstring) : bool :=
  match a, b with
  | [], [] => true
  | x :: a', y :: b' => N.eqb x y && jsstring_eqb a' b'
  | _, _ => false
  end.

Definition between (lo hi n : N) : bool := (N.leb lo n && N.leb n hi)%bool.

Local Open Scope N_scope.

(** [c.toUpperCase()] for a one-character string: a-z and the lower-case
    letters of U+00E0..U+00FE move 32 down; the micro sign goes to U+039C,
    sharp s to "SS", y with diaeresis to U+0178. *)
Definition toUpperCase (c : ascii) : jsstring :=
  let n := code c in
  if between 97 122 n then [n - 32]
  else if N.eqb n 181 then [924]
  else if N.eqb n 223 then [83; 83]
  else if between 224 246 n then [n - 32]
  else if between 248 254 n then [n - 32]
  else if N.eqb n 255 then [376]
  else [n].

(** [c.toLowerCase()]: A-Z and the upper-case letters of U+00C0..U+00DE
    move 32 up. *)
Definition toLowerCase (c : ascii) : jsstring :=
  let n := code c in
  if between 65 90 n then [n + 32]
  else if between 192 214 n then [n + 32]
  else if between 216 222 n then [n + 32]
  else [n].

Local Close Scope N_scope.

(** [TokenType[key]] for a string key.  The result is an enumerant exactly
    when [key] is the name of one; any other key gives no [TokenType] value
    ([undefined], a name string for the numeric keys of the reverse mapping,
    or a property inherited from [Object.prototype]), which is [None]
    here. *)
Definition TokenType_lookup (key : jsstring) : option TokenType.t :=
  find (fun k => jsstring_eqb (units (TokenType.name k)) key) TokenType.all.

(** ** Tokens *)

(** [interface Token].  The field [type] is [None] when the value stored is
    not a [TokenType] (a failed enumeration lookup). *)
Record Token : Set := mkToken { value : string; type : option TokenType.t }.

Definition tok (v : string) (k : TokenType.t) : Token :=
  {| value := v; type := Some k |}.

Definition specialIdentifiers : list string :=
  [ "let"; "const"; "args"; "arg"; "return"; "counter"; "name"; "type";
    "while"; "for"; "if"; "elseIf"; "else"; "from"; "to"; "condition" ].

(** ** Character classes *)

(** [isAlpha]; the argument is [None] for [undefined]. *)
Definition isAlpha (c : option ascii) : bool :=
  match c with
  | None => false
  | Some c =>
      negb (jsstring_eqb (toUpperCase c) (toLowerCase c))
      || Ascii.eqb c "_" || Ascii.eqb c "-"
  end.

(** The regular expression [\s] on one character: TAB, LF, VT, FF, CR,
    space and the no-break space.  The same characters are what [parseInt]
    and [Number] strip as white space. *)
Definition isSpace (c : ascii) : bool :=
  let n := code c in (between 9 13 n || N.eqb n 32 || N.eqb n 160)%N.

Definition isDigit (c : ascii) : bool := (between 48 57 (code c))%N.

Definition isHexDigit (c : ascii) : bool :=
  let n := code c in
  (between 48 57 n || between 65 70 n || between 97 102 n)%N.

Definition isOctDigit (c : ascii) : bool := (between 48 55 (code c))%N.

Definition isBinDigit (c : ascii) : bool := (between 48 49 (code c))%N.

Fixpoint dropWhile (p : ascii -> bool) (l : list ascii) : list ascii :=
  match l with
  | c :: l' => if p c then dropWhile p l' else l
  | [] => []
  end.

Fixpoint takeWhile (p : ascii -> bool) (l : list ascii) : list ascii :=
  match l with
  | c :: l' => if p c then c :: takeWhile p l' else []
  | [] => []
  end.

Definition nonempty (l : list ascii) : bool :=
  match l with [] => false | _ :: _ => true end.

Definition dropSign (l : list ascii) : list ascii :=
  match l with
  | c :: l' => if (Ascii.eqb c "+" || Ascii.eqb c "-")%bool then l' else l
  | [] => []
  end.

(** [isNaN(parseInt(s))]: after leading white space and an optional sign,
    [parseInt] reads digits (hexadecimal ones after [0x] or [0X], decimal
    ones otherwise) and gives NaN when there is none. *)
Definition parseInt_isNaN (s : string) : bool :=
  match dropSign (dropWhile isSpace (list_ascii_of_string s)) with
  | z :: x :: l =>
      if (Ascii.eqb z "0" && (Ascii.eqb x "x" || Ascii.eqb x "X"))%bool
      then match l with d :: _ => negb (isHexDigit d) | [] => true end
      else negb (isDigit z)
  | [d] => negb (isDigit d)
  | [] => true
  end.

Definition isNumeric (c : option ascii) : bool :=
  match c with
  | None => false
  | Some c => negb (parseInt_isNaN (String c EmptyString))
  end.

(** ** [Number(word)]: the string-to-number grammar of ECMAScript *)

Definition trim (l : list ascii) : list ascii :=
  rev (dropWhile isSpace (rev (dropWhile isSpace l))).

(** [ExponentPart], optional: [e] or [E], an optional sign, digits. *)
Definition exponentOpt (l : list ascii) : bool :=
  match l with
  | [] => true
  | e :: l' =>
      (Ascii.eqb e "e" || Ascii.eqb e "E")
      && nonempty (dropSign l') && forallb isDigit (dropSign l')
  end.

(** [StrUnsignedDecimalLiteral]. *)
Definition unsignedDecimal (l : list ascii) : bool :=
  String.eqb (string_of_list_ascii l) "Infinity"
  || let ip := takeWhile isDigit l in
     match dropWhile isDigit l with
     | c :: l' =>
         if Ascii.eqb c "."
         then let fp := takeWhile isDigit l' in
              (nonempty ip || nonempty fp) && exponentOpt (dropWhile isDigit l')
         else nonempty ip && exponentOpt (c :: l')
     | [] => nonempty ip
     end.

(** [NonDecimalIntegerLiteral]: [0x], [0o] or [0b] (either case) and at
    least one digit of that base. *)
Definition nonDecimalInteger (l : list ascii) : bool :=
  match l with
  | z :: b :: d :: l' =>
      Ascii.eqb z "0"
      && (((Ascii.eqb b "x" || Ascii.eqb b "X") && forallb isHexDigit (d :: l'))
          || ((Ascii.eqb b "o" || Ascii.eqb b "O") && forallb isOctDigit (d :: l'))
          || ((Ascii.eqb b "b" || Ascii.eqb b "B") && forallb isBinDigit (d :: l')))
  | _ => false
  end.

(** [isNaN(Number(s))]: the trimmed text is empty (the number 0), a signed
    decimal literal or a non-decimal integer literal, or else the result is
    NaN. *)
Definition Number_isNaN (s : string) : bool :=
  let l := trim (list_ascii_of_string s) in
  negb (negb (nonempty l) || unsignedDecimal (dropSign l) || nonDecimalInteger l).

(** ** The scanner state and the array operations *)

(** The two local arrays of [tokenize]: the cursor and the output. *)
Record state : Set := mkState { src : list ascii; tokens : list Token }.

(** [src.shift()]: drops the first element; nothing happens on an empty
    array. *)
Definition shift (st : state) : state :=
  {| src := tl (src st); tokens := tokens st |}.

(** [tokens.push(t)]. *)
Definition push (t : Token) (st : state) : state :=
  {| src := src st; tokens := tokens st ++ [t] |}.

(** [src[i]], [None] for [undefined]. *)
Definition at_ (st : state) (i : nat) : option ascii := nth_error (src st) i.

(** [x === "c"] for an array element [x] and a one-character literal. *)
Definition is_chr (x : option ascii) (c : ascii) : bool :=
  match x with Some a => Ascii.eqb a c | None => false end.

(** [x !== quote] where both are array elements. *)
Definition differs (x quote : option ascii) : bool :=
  match x, quote with
  | Some a, Some q => negb (Ascii.eqb a q)
  | None, None => false
  | _, _ => true
  end.

(** [s.includes(x)] for an array element [x]: membership of the character;
    [undefined] is searched for as the text "undefined". *)
Definition includes (s : string) (x : option ascii) : bool :=
  match x with
  | Some a => existsb (Ascii.eqb a) (list_ascii_of_string s)
  | None => false
  end.

(** The text of an array element used as a lexeme; the branch that uses it
    runs on a defined element only. *)
Definition lexeme (x : option ascii) : string :=
  match x with Some a => String a EmptyString | None => EmptyString end.

(** [skipWhitespace]. *)
Fixpoint skipWhitespace_loop (l : list ascii) : list ascii :=
  match l with
  | c :: l' => if isSpace c then skipWhitespace_loop l' else l
  | [] => []
  end.

Definition skipWhitespace (st : state) : state :=
  {| src := skipWhitespace_loop (src st); tokens := tokens st |}.

(** [skipComment]: when the second character is a slash, drop everything
    before the next line feed. *)
Fixpoint skipComment_loop (l : list ascii) : list ascii :=
  match l with
  | c :: l' => if negb (Ascii.eqb c "010") then skipComment_loop l' else l
  | [] => []
  end.

Definition skipComment (st : state) : state :=
  if is_chr (at_ st 1) "/"
  then {| src := skipComment_loop (src st); tokens := tokens st |}
  else st.

(** The loop of the string branch: [str] grows by the characters before
    the closing quote; the result is the cursor left and the text read. *)
Fixpoint string_loop (quote : option ascii) (l : list ascii) (str : string)
  : list ascii * string :=
  match l with
  | c :: l' =>
      if differs (Some c) quote
      then string_loop quote l' (str ++ String c EmptyString)%string
      else (l, str)
  | [] => ([], str)
  end.

(** The loop of the word branch. *)
Fixpoint word_loop (l : list ascii) (word : string) : list ascii * string :=
  match l with
  | c :: l' =>
      if isAlpha (Some c) || isNumeric (Some c)
      then word_loop l' (word ++ String c EmptyString)%string
      else (l, word)
  | [] => ([], word)
  end.

(** [word.charAt(0).toUpperCase() + word.slice(1)]. *)
Definition capitalize (word : string) : jsstring :=
  match word with
  | String c rest => toUpperCase c ++ units rest
  | EmptyString => []
  end.

(** The token pushed for a scanned word. *)
Definition word_token (word : string) : Token :=
  if negb (Number_isNaN word) then tok word TokenType.Number
  else if existsb (String.eqb word) specialIdentifiers
       then {| value := word; type := TokenType_lookup (capitalize word) |}
       else tok word TokenType.Identifier.

(** ** The scan loop *)

(** The chain of [if]/[else if] of the loop body, run on the state that
    [skipWhitespace()] leaves.  The double quote is written by its code,
    ["034"]. *)
Definition dispatch (st : state) : state :=
  if is_chr (at_ st 0) "/" && is_chr (at_ st 1) "/" then skipComment st
  else if is_chr (at_ st 0) "<" then
    if is_chr (at_ st 1) "/"
    then shift (shift (push (tok "</" TokenType.EndBracket) st))
    else shift (push (tok "<" TokenType.OpenBracket) st)
  else if is_chr (at_ st 0) ">" then
    shift (push (tok ">" TokenType.CloseBracket) st)
  else if is_chr (at_ st 0) "/" then
    shift (if is_chr (at_ st 1) ">"
           then shift (push (tok "/>" TokenType.SelfClosingTag) st)
           else st)
  else if is_chr (at_ st 0) "(" then
    shift (push (tok "(" TokenType.OpenParen) st)
  else if is_chr (at_ st 0) ")" then
    shift (push (tok ")" TokenType.CloseParen) st)
  else if is_chr (at_ st 0) "{" then
    shift (push (tok "{" TokenType.OpenBrace) st)
  else if is_chr (at_ st 0) "}" then
    shift (push (tok "}" TokenType.CloseBrace) st)
  else if includes "+-*/" (at_ st 0) then
    shift (push (tok (lexeme (at_ st 0)) TokenType.BinaryOperator) st)
  else if is_chr (at_ st 0) "=" then
    shift (push (tok "=" TokenType.Equals) st)
  else if is_chr (at_ st 0) "034" || is_chr (at_ st 0) "'" then
    let quote := at_ st 0 in
    let st1 := shift st in
    let (rest, str) := string_loop quote (src st1) EmptyString in
    let st2 := shift {| src := rest; tokens := tokens st1 |} in
    push (tok str TokenType.StringLiteral) st2
  else if isNumeric (at_ st 0) || isAlpha (at_ st 0) then
    let (rest, word) := word_loop (src st) EmptyString in
    push (word_token word) {| src := rest; tokens := tokens st |}
  else shift st.

(** One iteration of [while (src.length > 0)]. *)
Definition body (st : state) : state := dispatch (skipWhitespace st).

(** The loop itself.  [fuel] bounds the number of iterations; [None] means
    the bound was reached with input left. *)
Fixpoint loop (fuel : nat) (st : state) : option (list Token) :=
  match src st with
  | [] => Some (tokens st)
  | _ :: _ =>
      match fuel with
      | O => None
      | S fuel' => loop fuel' (body st)
      end
  end.

(** [tokenize]: every iteration on a non-empty cursor consumes a character,
    so the length of the source is fuel enough. *)
Definition tokenize (source : string) : option (list Token) :=
  loop (String.length source)
       {| src := list_ascii_of_string source; tokens := [] |}.


(** ** Notions used to state the properties *)

(** The characters a word is made of. *)
Definition wordChar (c : ascii) : bool := isAlpha (Some c) || isNumeric (Some c).

Definition isQuote (c : ascii) : bool := Ascii.eqb c "034" || Ascii.eqb c "'".

(** The characters with a branch of their own in [dispatch]. *)
Definition special (c : ascii) : bool :=
  existsb (Ascii.eqb c) ["/"; "<"; ">"; "("; ")"; "{"; "}"; "+"; "-"; "*"; "=";
                         "034"; "'"]%char.

(** The one-character tokens other than the opening bracket. *)
Definition singles : list (ascii * TokenType.t) :=
  [ (">", TokenType.CloseBracket); ("(", TokenType.OpenParen);
    (")", TokenType.CloseParen); ("{", TokenType.OpenBrace);
    ("}", TokenType.CloseBrace); ("+", TokenType.BinaryOperator);
    ("-", TokenType.BinaryOperator); ("*", TokenType.BinaryOperator);
    ("=", TokenType.Equals) ]%char.

(** [scans l em l']: on the cursor [l], white space already skipped, one
    pass through the branches emits the tokens [em] and leaves [l']. *)
Inductive scans : list ascii -> list Token -> list ascii -> Prop :=
| scan_end : scans [] [] []
| scan_comment r : scans ("/" :: "/" :: r)%char [] (skipComment_loop r)
| scan_end_bracket r :
    scans ("<" :: "/" :: r)%char [tok "</" TokenType.EndBracket] r
| scan_open_bracket r :
    is_chr (hd_error r) "/" = false ->
    scans ("<"%char :: r) [tok "<" TokenType.OpenBracket] r
| scan_self_closing r :
    scans ("/" :: ">" :: r)%char [tok "/>" TokenType.SelfClosingTag] r
| scan_slash r :
    is_chr (hd_error r) "/" = false -> is_chr (hd_error r) ">" = false ->
    scans ("/"%char :: r) [] r
| scan_single c k r :
    In (c, k) singles -> scans (c :: r) [tok (String c EmptyString) k] r
| scan_string q a r :
    isQuote q = true -> ~ In q a ->
    scans (q :: a ++ q :: r)
          [tok (string_of_list_ascii a) TokenType.StringLiteral] r
| scan_string_open q a :
    isQuote q = true -> ~ In q a ->
    scans (q :: a) [tok (string_of_list_ascii a) TokenType.StringLiteral] []
| scan_word c r :
    wordChar c = true -> c <> "-"%char ->
    scans (c :: r)
          [word_token (string_of_list_ascii (takeWhile wordChar (c :: r)))]
          (dropWhile wordChar (c :: r))
| scan_other c r :
    special c = false -> wordChar c = false -> scans (c :: r) [] r.

(** The number of characters held by the lexemes of a token list. *)
Definition lexemes_length (l : list Token) : nat :=
  list_sum (map (fun t => String.length (value t)) l).

(** [runs l em]: the loop started on the cursor [l] ends with the tokens
    [em] pushed, one [scans] pass per iteration after the white space is
    skipped. *)
Inductive runs : list ascii -> list Token -> Prop :=
| runs_nil : runs [] []
| runs_step c l em l' em' :
    scans (dropWhile isSpace (c :: l)) em l' -> runs l' em' ->
    runs (c :: l) (em ++ em').

(** The punctuation and operator tokens. *)
Definition punctuation : list (string * TokenType.t) :=
  [ ("</", TokenType.EndBracket); ("<", TokenType.OpenBracket);
    (">", TokenType.CloseBracket); ("/>", TokenType.SelfClosingTag);
    ("(", TokenType.OpenParen); (")", TokenType.CloseParen);
    ("{", TokenType.OpenBrace); ("}", TokenType.CloseBrace);
    ("+", TokenType.BinaryOperator); ("-", TokenType.BinaryOperator);
    ("*", TokenType.BinaryOperator); ("=", TokenType.Equals) ].

(** The token types of the reserved words, in the order of
    [specialIdentifiers]. *)
Definition keywordTypes : list TokenType.t :=
  [ TokenType.Let; TokenType.Const; TokenType.Args; TokenType.Arg;
    TokenType.Return; TokenType.Counter; TokenType.Name; TokenType.Type_;
    TokenType.While; TokenType.For; TokenType.If; TokenType.ElseIf;
    TokenType.Else; TokenType.From; TokenType.To; TokenType.Condition ].

(** The six enumerants the specification calls never emitted, and the five
    of them no branch pushes. *)
Definition reserved : list TokenType.t :=
  [ TokenType.Comment; TokenType.Name; TokenType.StartTemplateString;
    TokenType.EndTemplateString; TokenType.StartInterpolation;
    TokenType.EndInterpolation ].

Definition unused : list TokenType.t :=
  [ TokenType.Comment; TokenType.StartTemplateString;
    TokenType.EndTemplateString; TokenType.StartInterpolation;
    TokenType.EndInterpolation ].

(** No token of [source] has one of the [reserved] types. *)
Definition never_reserved (source : string) : Prop :=
  forall toks t k,
    tokenize source = Some toks -> In t toks -> type t = Some k ->
    ~ In k reserved.

(** The lexeme holds a letter, [_] or [-]. *)
Definition hasAlpha (s : string) : bool :=
  existsb (fun c => isAlpha (Some c)) (list_ascii_of_string s).

(** No token of [source] with an alpha character in its lexeme is a
    [Number]. *)
Definition alpha_never_Number (source : string) : Prop :=
  forall toks t,
    tokenize source = Some toks -> In t toks -> hasAlpha (value t) = true ->
    type t <> Some TokenType.Number.

(** The input of a minus sign and [digits] gives one token holding both. *)
Definition minus_absorbed (digits : string) : Prop :=
  exists t, tokenize ("-" ++ digits) = Some [t] /\ value t = ("-" ++ digits)%string.

(** A string holding one double quote. *)
Definition dquote : string := String "034" EmptyString.

(** The text is made of white space only. *)
Definition blank (w : string) : bool :=
  forallb isSpace (list_ascii_of_string w).

(** Some iteration of the loop on [l] starts, after the white space, at a
    quote character that does not occur again: a string literal is left
    without its closing quote. *)
Fixpoint unterminated_loop (fuel : nat) (l : list ascii) : bool :=
  match fuel with
  | O => false
  | S fuel' =>
      match skipWhitespace_loop l with
      | q :: rest =>
          isQuote q && negb (existsb (Ascii.eqb q) rest)
          || unterminated_loop fuel' (src (body (mkState l [])))
      | [] => false
      end
  end.

Definition unterminated (source : string) : bool :=
  unterminated_loop (String.length source) (list_ascii_of_string source).

(** White space around [source] leaves its tokens as they are. *)
Definition whitespace_invariant (source w1 w2 : string) : Prop :=
  tokenize (w1 ++ source ++ w2) = tokenize source.

(** The line feed, which ends a comment. *)
Definition lf : ascii := "010"%char.

(** The text is empty or starts with a character that cannot continue a
    word. *)
Definition boundary (rest : list ascii) : bool :=
  match rest with
  | [] => true
  | c :: _ => negb (wordChar c)
  end.

(** A word as the word branch can read one: not empty, made of word
    characters, the first of them not the minus sign (which the operator
    branch takes). *)
Definition isWord (w : string) : bool :=
  match list_ascii_of_string w with
  | c :: cs => wordChar c && negb (Ascii.eqb c "-") && forallb wordChar cs
  | [] => false
  end.

(** The token types given to scanned words. *)
Definition wordTypes : list TokenType.t :=
  TokenType.Number :: TokenType.Identifier :: keywordTypes.

(** The characters of the lexemes, in the order of the tokens. *)
Definition lexeme_chars (toks : list Token) : list ascii :=
  flat_map (fun t => list_ascii_of_string (value t)) toks.

(** [subseq a b]: [a] is [b] with some characters left out. *)
Inductive subseq : list ascii -> list ascii -> Prop :=
| subseq_nil : subseq [] []
| subseq_skip x a b : subseq a b -> subseq a (x :: b)
| subseq_keep x a b : subseq a b -> subseq (x :: a) (x :: b).

(** * Properties *)

#[local] Arguments isAlpha : simpl never.
#[local] Arguments isNumeric : simpl never.
#[local] Arguments isSpace : simpl never.
#[local] Arguments wordChar : simpl never.
#[local] Arguments Number_isNaN : simpl never.
#[local] Arguments word_token : simpl never.

(** ** Sample inputs *)

Example tokenize_end_bracket :
  tokenize "</" = Some [tok "</" TokenType.EndBracket].
Proof. reflexivity. Qed.

Example tokenize_open_bracket :
  tokenize "<" = Some [tok "<" TokenType.OpenBracket].
Proof. reflexivity. Qed.

Example tokenize_number : tokenize "42" = Some [tok "42" TokenType.Number].
Proof. reflexivity. Qed.

Example tokenize_comment :
  tokenize ("a // b" ++ String "010" "c") =
  Some [tok "a" TokenType.Identifier; tok "c" TokenType.Identifier].
Proof. reflexivity. Qed.

Example tokenize_string :
  tokenize (dquote ++ "hello" ++ dquote) =
  Some [tok "hello" TokenType.StringLiteral].
Proof. reflexivity. Qed.

Example tokenize_kebab :
  tokenize "foo--bar 5-3" =
  Some [tok "foo--bar" TokenType.Identifier; tok "5-3" TokenType.Identifier].
Proof. reflexivity. Qed.

Example tokenize_tag :
  tokenize "<let name={foo} type='number'> 5 </let>" =
  Some [ tok "<" TokenType.OpenBracket; tok "let" TokenType.Let;
         tok "name" TokenType.Name; tok "=" TokenType.Equals;
         tok "{" TokenType.OpenBrace; tok "foo" TokenType.Identifier;
         tok "}" TokenType.CloseBrace; tok "type" TokenType.Type_;
         tok "=" TokenType.Equals; tok "number" TokenType.StringLiteral;
         tok ">" TokenType.CloseBracket; tok "5" TokenType.Number;
         tok "</" TokenType.EndBracket; tok "let" TokenType.Let;
         tok ">" TokenType.CloseBracket ].
Proof. reflexivity. Qed.

Example Number_isNaN_samples :
  map Number_isNaN ["42"; "1e5"; "1e-5"; "0x1F"; "0b101"; "Infinity"; "-7"; " 8 "; ".5"; "5."]
  = repeat false 10
  /\ map Number_isNaN ["42abc"; "5-3"; "1e"; "0x"; "1_0"; "e5"; "."; "infinity"; "let"; "+-1"]
     = repeat true 10.
Proof. split; reflexivity. Qed.

Example isAlpha_samples :
  map (fun c => isAlpha (Some c)) ["a"; "Z"; "_"; "-"; "0"; " "; "/"; "="]%char
  = [true; true; true; true; false; false; false; false].
Proof. reflexivity. Qed.

Example unterminated_samples :
  unterminated (dquote ++ "a") = true
  /\ unterminated (dquote ++ "a" ++ dquote) = false
  /\ unterminated "x = 'a' + 'b" = true.
Proof. repeat split; reflexivity. Qed.

(** ** Strings and lists of characters *)

Lemma append_nil_r (s : string) : (s ++ EmptyString)%string = s.
Proof. induction s as [|c s IH]; simpl; [reflexivity | now rewrite IH]. Qed.

Lemma append_assoc (a b c : string) :
  ((a ++ b) ++ c)%string = (a ++ (b ++ c))%string.
Proof. induction a as [|x a IH]; simpl; [reflexivity | now rewrite IH]. Qed.

Lemma length_append (a b : string) :
  String.length (a ++ b) = String.length a + String.length b.
Proof. induction a as [|x a IH]; simpl; [reflexivity | now rewrite IH]. Qed.

Lemma length_list_ascii_of_string (s : string) :
  List.length (list_ascii_of_string s) = String.length s.
Proof. induction s as [|c s IH]; simpl; [reflexivity | now rewrite IH]. Qed.

Lemma length_string_of_list_ascii (l : list ascii) :
  String.length (string_of_list_ascii l) = List.length l.
Proof. induction l as [|c l IH]; simpl; [reflexivity | now rewrite IH]. Qed.

Lemma list_ascii_of_string_app (a b : string) :
  list_ascii_of_string (a ++ b) = list_ascii_of_string a ++ list_ascii_of_string b.
Proof. induction a as [|x a IH]; simpl; [reflexivity | now rewrite IH]. Qed.

Lemma takeWhile_dropWhile p l : takeWhile p l ++ dropWhile p l = l.
Proof.
  induction l as [|c l IH]; simpl; [reflexivity|].
  destruct (p c); simpl; [now rewrite IH | reflexivity].
Qed.

Lemma dropWhile_length p l : List.length (dropWhile p l) <= List.length l.
Proof.
  induction l as [|c l IH]; simpl; [lia|]. destruct (p c); simpl; lia.
Qed.

Lemma dropWhile_all p l : forallb p l = true -> dropWhile p l = [].
Proof.
  induction l as [|c l IH]; simpl; [reflexivity|].
  destruct (p c); simpl; [exact IH | discriminate].
Qed.

Lemma takeWhile_all p l : forallb p l = true -> takeWhile p l = l.
Proof.
  induction l as [|c l IH]; simpl; [reflexivity|].
  destruct (p c); simpl; [intros H; now rewrite IH | discriminate].
Qed.

Lemma dropWhile_app_stop p a c r :
  forallb p a = true -> p c = false -> dropWhile p (a ++ c :: r) = c :: r.
Proof.
  induction a as [|x a IH]; simpl; intros Ha Hc; [now rewrite Hc|].
  destruct (p x); simpl in *; [now apply IH | discriminate].
Qed.

Lemma takeWhile_app_stop p a c r :
  forallb p a = true -> p c = false -> takeWhile p (a ++ c :: r) = a.
Proof.
  induction a as [|x a IH]; simpl; intros Ha Hc; [now rewrite Hc|].
  destruct (p x); simpl in *; [now rewrite IH | discriminate].
Qed.

(** ** The loops of the scanner *)

Lemma skipWhitespace_loop_dropWhile l :
  skipWhitespace_loop l = dropWhile isSpace l.
Proof. induction l as [|c l IH]; simpl; [reflexivity | now rewrite IH]. Qed.

Lemma skipComment_loop_dropWhile l :
  skipComment_loop l = dropWhile (fun c => negb (Ascii.eqb c "010")) l.
Proof. induction l as [|c l IH]; simpl; [reflexivity | now rewrite IH]. Qed.

Lemma string_loop_spec q l str :
  string_loop (Some q) l str =
  (dropWhile (fun c => negb (Ascii.eqb c q)) l,
   (str ++ string_of_list_ascii (takeWhile (fun c => negb (Ascii.eqb c q)) l))%string).
Proof.
  revert str; induction l as [|c l IH]; intros str; simpl.
  - now rewrite append_nil_r.
  - destruct (negb (Ascii.eqb c q)); simpl.
    + rewrite IH, append_assoc. reflexivity.
    + now rewrite append_nil_r.
Qed.

Lemma word_loop_spec l word :
  word_loop l word =
  (dropWhile wordChar l, (word ++ string_of_list_ascii (takeWhile wordChar l))%string).
Proof.
  revert word; induction l as [|c l IH]; intros word; simpl.
  - now rewrite append_nil_r.
  - change (isAlpha (Some c) || isNumeric (Some c)) with (wordChar c).
    destruct (wordChar c); simpl.
    + rewrite IH, append_assoc. reflexivity.
    + now rewrite append_nil_r.
Qed.

(** ** Character classes, by enumeration of the 256 characters *)

Ltac each_char c :=
  destruct c as [[] [] [] [] [] [] [] []]; vm_compute.

Lemma isNumeric_isDigit c : isNumeric (Some c) = isDigit c.
Proof. each_char c; reflexivity. Qed.

Lemma wordChar_not_special c :
  wordChar c = true -> c <> "-"%char -> special c = false.
Proof.
  each_char c; intros H1 H2; try reflexivity; try discriminate;
    exfalso; apply H2; reflexivity.
Qed.

Lemma space_not_wordChar c : isSpace c = true -> wordChar c = false.
Proof. each_char c; intros H; try reflexivity; discriminate. Qed.

Lemma space_not_special c : isSpace c = true -> special c = false.
Proof. each_char c; intros H; try reflexivity; discriminate. Qed.

Lemma digit_wordChar c : isDigit c = true -> wordChar c = true.
Proof. each_char c; intros H; try reflexivity; discriminate. Qed.

Lemma digit_not_space c : isDigit c = true -> isSpace c = false.
Proof. each_char c; intros H; try reflexivity; discriminate. Qed.

Lemma special_cases c :
  special c = true ->
  In c ["/"; "<"; ">"; "("; ")"; "{"; "}"; "+"; "-"; "*"; "="; "034"; "'"]%char.
Proof.
  unfold special. rewrite existsb_exists. intros [x [Hx He]].
  apply Ascii.eqb_eq in He. now subst.
Qed.

Lemma special_false c :
  special c = false ->
  forall x, In x ["/"; "<"; ">"; "("; ")"; "{"; "}"; "+"; "-"; "*"; "="; "034"; "'"]%char ->
            Ascii.eqb c x = false.
Proof.
  intros H x Hx. destruct (Ascii.eqb c x) eqn:E; [|reflexivity].
  assert (special c = true); [|congruence].
  unfold special. rewrite existsb_exists. now exists x.
Qed.

Lemma isQuote_cases q : isQuote q = true -> q = "034"%char \/ q = "'"%char.
Proof.
  unfold isQuote. rewrite orb_true_iff, !Ascii.eqb_eq. tauto.
Qed.

Lemma not_In_forallb q a :
  ~ In q a -> forallb (fun c => negb (Ascii.eqb c q)) a = true.
Proof.
  induction a as [|x a IH]; simpl; intros H; [reflexivity|].
  destruct (Ascii.eqb_spec x q) as [->|Hne]; simpl; [tauto|].
  apply IH. tauto.
Qed.

Lemma forallb_not_In q a :
  forallb (fun c => negb (Ascii.eqb c q)) a = true -> ~ In q a.
Proof.
  induction a as [|x a IH]; simpl; intros H; [tauto|].
  apply andb_true_iff in H. destruct H as [H1 H2].
  intros [->|Hin]; [now rewrite Ascii.eqb_refl in H1 | exact (IH H2 Hin)].
Qed.

Lemma takeWhile_forallb p l : forallb p (takeWhile p l) = true.
Proof.
  induction l as [|c l IH]; simpl; [reflexivity|].
  destruct (p c) eqn:E; simpl; [now rewrite E | reflexivity].
Qed.

Lemma dropWhile_head p l c r : dropWhile p l = c :: r -> p c = false.
Proof.
  induction l as [|x l IH]; simpl; [discriminate|].
  destruct (p x) eqn:E; [exact IH | congruence].
Qed.

(** The first occurrence of [q] in [l], when there is one. *)
Lemma split_first (q : ascii) (l : list ascii) :
  ~ In q l \/ exists a b, l = a ++ q :: b /\ ~ In q a.
Proof.
  pose proof (takeWhile_dropWhile (fun c => negb (Ascii.eqb c q)) l) as E.
  pose proof (takeWhile_forallb (fun c => negb (Ascii.eqb c q)) l) as Ht.
  destruct (dropWhile (fun c => negb (Ascii.eqb c q)) l) as [|c r] eqn:D.
  - left. rewrite app_nil_r in E. rewrite <- E. now apply forallb_not_In.
  - right. apply dropWhile_head in D. apply negb_false_iff, Ascii.eqb_eq in D.
    subst c. exists (takeWhile (fun c => negb (Ascii.eqb c q)) l), r.
    split; [now rewrite E | now apply forallb_not_In].
Qed.

(** ** One pass through the branches: [dispatch] and [scans] agree *)

Lemma is_chr_hd_error c r x : is_chr (hd_error (c :: r)) x = Ascii.eqb c x.
Proof. reflexivity. Qed.

Ltac special_tests H :=
  let T := fresh "T" in
  pose proof (special_false _ H) as T;
  repeat match goal with
         | |- context [Ascii.eqb ?c ?x] =>
             rewrite (T x) by (simpl; tauto)
         end;
  clear T.

Lemma scans_dispatch l em l' :
  scans l em l' ->
  forall toks, dispatch (mkState l toks) = mkState l' (toks ++ em).
Proof.
  intros H toks. destruct H.
  - unfold dispatch, shift. simpl. now rewrite app_nil_r.
  - unfold dispatch, skipComment. simpl. now rewrite app_nil_r.
  - reflexivity.
  - unfold dispatch, at_. cbn [src nth_error].
    destruct r as [|x r]; simpl in *; [reflexivity|]. now rewrite H.
  - reflexivity.
  - unfold dispatch, at_. cbn [src nth_error].
    destruct r as [|x r]; simpl in *; unfold shift; simpl;
      [now rewrite app_nil_r|]. rewrite H, H0. simpl. now rewrite app_nil_r.
  - simpl in H.
    repeat (destruct H as [H|H]; [inversion H; subst; reflexivity|]).
    contradiction.
  - apply isQuote_cases in H. 
    assert (E : string_loop (Some q) (a ++ q :: r) EmptyString
                = (q :: r, string_of_list_ascii a)).
    { rewrite string_loop_spec. simpl.
      rewrite dropWhile_app_stop, takeWhile_app_stop;
        auto using not_In_forallb; now rewrite Ascii.eqb_refl. }
    destruct H as [->| ->]; unfold dispatch, at_, shift, push; simpl;
      rewrite E; reflexivity.
  - apply isQuote_cases in H.
    assert (E : string_loop (Some q) a EmptyString
                = ([], string_of_list_ascii a)).
    { rewrite string_loop_spec. simpl.
      rewrite dropWhile_all, takeWhile_all; auto using not_In_forallb. }
    destruct H as [->| ->]; unfold dispatch, at_, shift, push; simpl;
      rewrite E; reflexivity.
  - pose proof (wordChar_not_special c H H0) as Hs.
    unfold dispatch, at_, is_chr, includes.
    cbn [src nth_error list_ascii_of_string existsb tokens].
    special_tests Hs. cbn [andb orb].
    unfold wordChar in H. rewrite orb_comm in H. rewrite H.
    rewrite word_loop_spec. reflexivity.
  - unfold dispatch, at_, is_chr, includes.
    cbn [src nth_error list_ascii_of_string existsb tokens].
    special_tests H. cbn [andb orb].
    unfold wordChar in H0. rewrite orb_comm in H0. rewrite H0.
    unfold shift. simpl. now rewrite app_nil_r.
Qed.

Lemma scans_total l : exists em l', scans l em l'.
Proof.
  destruct l as [|c r]; [eauto using scans|].
  destruct (special c) eqn:Hs.
  - apply special_cases in Hs. simpl in Hs.
    assert (Hsingle : forall k, In (c, k) singles -> exists em l', scans (c :: r) em l')
      by (intros k Hk; eauto using scans).
    assert (Hquote : isQuote c = true -> exists em l', scans (c :: r) em l').
    { intros Hq. destruct (split_first c r) as [Hn | [a [b [-> Hn]]]];
        eauto using scans. }
    destruct Hs as [<-|[<-|[<-|[<-|[<-|[<-|[<-|[<-|[<-|[<-|[<-|[<-|[<-|[]]]]]]]]]]]]]];
      try (apply Hquote; reflexivity);
      try (eapply Hsingle; simpl; tauto).
    + destruct r as [|x r]; [eauto using scans|].
      destruct (Ascii.eqb_spec x "/") as [->|H1]; [eauto using scans|].
      destruct (Ascii.eqb_spec x ">") as [->|H2]; [eauto using scans|].
      do 2 eexists. apply scan_slash; simpl; now apply Ascii.eqb_neq.
    + destruct r as [|x r]; [eauto using scans|].
      destruct (Ascii.eqb_spec x "/") as [->|H1]; [eauto using scans|].
      do 2 eexists. apply scan_open_bracket; simpl; now apply Ascii.eqb_neq.
  - destruct (wordChar c) eqn:Hw; [|eauto using scans].
    do 2 eexists. apply scan_word; [assumption|].
    intros ->. discriminate Hs.
Qed.

Lemma dispatch_scans l toks :
  exists em l', scans l em l' /\ dispatch (mkState l toks) = mkState l' (toks ++ em).
Proof.
  destruct (scans_total l) as [em [l' H]]. exists em, l'.
  split; [assumption | now apply scans_dispatch].
Qed.

Lemma body_dispatch l toks :
  body (mkState l toks) = dispatch (mkState (dropWhile isSpace l) toks).
Proof.
  unfold body, skipWhitespace. simpl. now rewrite skipWhitespace_loop_dropWhile.
Qed.

(** ** What one pass consumes and emits *)

Lemma value_word_token w : value (word_token w) = w.
Proof.
  unfold word_token. destruct (negb (Number_isNaN w)); [reflexivity|].
  destruct (existsb (String.eqb w) specialIdentifiers); reflexivity.
Qed.

Lemma takeWhile_dropWhile_length p l :
  List.length (takeWhile p l) + List.length (dropWhile p l) = List.length l.
Proof. now rewrite <- length_app, takeWhile_dropWhile. Qed.

Lemma scans_measure l em l' :
  scans l em l' ->
  List.length em + List.length l' <= List.length l
  /\ lexemes_length em + List.length l' <= List.length l
  /\ (l <> [] -> List.length l' < List.length l).
Proof.
  unfold lexemes_length.
  destruct 1 as [ | r | r | r Hr | r | r H1 H2 | c k r Hin | q a r Hq Hn
                | q a Hq Hn | c r Hword Hm | c r Hs Hw ];
    try (cbn [takeWhile dropWhile]; rewrite Hword;
         pose proof (takeWhile_dropWhile_length wordChar r));
    cbn [List.length map list_sum fold_right value tok app String.length];
    rewrite ?value_word_token, ?length_app, ?length_string_of_list_ascii;
    cbn [List.length];
    try (rewrite skipComment_loop_dropWhile;
         pose proof (dropWhile_length (fun c => negb (Ascii.eqb c "010")) r));
    repeat split; try lia; try congruence; intros _; lia.
Qed.

Lemma pass_measure c l em l' :
  scans (dropWhile isSpace (c :: l)) em l' ->
  List.length em + List.length l' <= S (List.length l)
  /\ lexemes_length em + List.length l' <= S (List.length l)
  /\ List.length l' <= List.length l.
Proof.
  intros H. pose proof (dropWhile_length isSpace (c :: l)) as Hd.
  cbn [List.length] in Hd.
  destruct (scans_measure _ _ _ H) as [H1 [H2 H3]].
  repeat split; try lia.
  destruct (dropWhile isSpace (c :: l)) as [|x r] eqn:E.
  - inversion H; subst. simpl. lia.
  - assert (x :: r <> []) as Hne by congruence. specialize (H3 Hne). lia.
Qed.

(** ** The loop and the tokens it returns *)

Lemma lexemes_length_app a b :
  lexemes_length (a ++ b) = lexemes_length a + lexemes_length b.
Proof. unfold lexemes_length. now rewrite map_app, list_sum_app. Qed.

Lemma runs_loop l em :
  runs l em ->
  forall fuel toks, List.length l <= fuel ->
                    loop fuel (mkState l toks) = Some (toks ++ em).
Proof.
  induction 1 as [|c l em l' em' Hs Hr IH]; intros fuel toks Hf.
  - destruct fuel; simpl; now rewrite app_nil_r.
  - destruct fuel as [|fuel]; [simpl in Hf; lia|].
    cbn [loop src]. rewrite body_dispatch, (scans_dispatch _ _ _ Hs).
    rewrite IH, app_assoc; [reflexivity|].
    apply pass_measure in Hs. simpl in Hf. lia.
Qed.

Lemma runs_total l : exists em, runs l em.
Proof.
  remember (List.length l) as n eqn:E. revert l E.
  induction n as [n IH] using lt_wf_ind. intros l E.
  destruct l as [|c l]; [exists []; constructor|].
  destruct (scans_total (dropWhile isSpace (c :: l))) as [em [l' Hs]].
  destruct (IH (List.length l')) with (l := l') as [em' Hr]; [|reflexivity|].
  - apply pass_measure in Hs. subst n. simpl. lia.
  - exists (em ++ em'). econstructor; eassumption.
Qed.

Lemma runs_measure l em :
  runs l em ->
  List.length em <= List.length l /\ lexemes_length em <= List.length l.
Proof.
  induction 1 as [|c l em l' em' Hs Hr [IH1 IH2]];
    [unfold lexemes_length; simpl; split; lia|].
  apply pass_measure in Hs. rewrite length_app, lexemes_length_app.
  simpl. lia.
Qed.

Lemma runs_tokenize source em :
  runs (list_ascii_of_string source) em -> tokenize source = Some em.
Proof.
  intros H. unfold tokenize.
  rewrite (runs_loop _ _ H); [reflexivity|].
  now rewrite length_list_ascii_of_string.
Qed.

Lemma tokenize_runs source :
  exists em, tokenize source = Some em /\ runs (list_ascii_of_string source) em.
Proof.
  destruct (runs_total (list_ascii_of_string source)) as [em H].
  exists em. split; [now apply runs_tokenize | assumption].
Qed.

(** A property of every token pushed by a branch holds of every token
    returned. *)
Section Output.

Variable P : Token -> Prop.
Hypothesis P_punctuation : forall v k, In (v, k) punctuation -> P (tok v k).
Hypothesis P_string : forall v, P (tok v TokenType.StringLiteral).
Hypothesis P_word : forall w, P (word_token w).

Lemma scans_output l em l' : scans l em l' -> Forall P em.
Proof.
  destruct 1; repeat constructor;
    try apply P_string; try apply P_word;
    try (apply P_punctuation; simpl; tauto).
  simpl in H.
  repeat (destruct H as [H|H];
          [inversion H; subst; apply P_punctuation; simpl; tauto|]).
  contradiction.
Qed.

Lemma runs_output l em : runs l em -> Forall P em.
Proof.
  induction 1 as [|c l em l' em' Hs Hr IH]; [constructor|].
  apply Forall_app. split; [exact (scans_output _ _ _ Hs) | assumption].
Qed.

Lemma tokenize_output source :
  exists toks, tokenize source = Some toks /\ Forall P toks.
Proof.
  destruct (tokenize_runs source) as [em [H1 H2]].
  exists em. split; [assumption | exact (runs_output _ _ H2)].
Qed.

End Output.

(** ** Words *)

Lemma specialIdentifiers_lookup w :
  In w specialIdentifiers ->
  exists k, In k keywordTypes
            /\ capitalize w = units (TokenType.name k)
            /\ TokenType_lookup (capitalize w) = Some k.
Proof.
  intros H. simpl in H.
  repeat (destruct H as [H|H];
          [subst w; eexists; split; [|split; [|reflexivity]];
           [simpl; tauto | reflexivity]|]).
  contradiction.
Qed.

Lemma existsb_eqb_In w l : existsb (String.eqb w) l = true <-> In w l.
Proof.
  rewrite existsb_exists. split.
  - intros [x [Hx He]]. apply String.eqb_eq in He. now subst.
  - intros H. exists w. split; [assumption | apply String.eqb_refl].
Qed.

(** The three outcomes of classifying a word. *)
Lemma word_token_cases w :
  (Number_isNaN w = false /\ word_token w = tok w TokenType.Number)
  \/ (Number_isNaN w = true /\ In w specialIdentifiers
      /\ exists k, In k keywordTypes
                   /\ capitalize w = units (TokenType.name k)
                   /\ word_token w = tok w k)
  \/ (Number_isNaN w = true /\ ~ In w specialIdentifiers
      /\ word_token w = tok w TokenType.Identifier).
Proof.
  unfold word_token. destruct (Number_isNaN w); cbn [negb]; [|now left].
  right. destruct (existsb (String.eqb w) specialIdentifiers) eqn:E.
  - left. apply existsb_eqb_In in E.
    destruct (specialIdentifiers_lookup w E) as [k [Hk [Hc Hl]]].
    repeat split; try assumption. exists k. rewrite Hl. auto.
  - right. repeat split; try reflexivity.
    intros H. apply existsb_eqb_In in H. congruence.
Qed.

(** ** The token types that occur *)

Lemma keywordTypes_not_unused k : In k keywordTypes -> ~ In k unused.
Proof.
  simpl. intros H.
  repeat (destruct H as [H|H]; [subst k; intuition discriminate|]).
  contradiction.
Qed.

Lemma capitalize_Name w :
  In w specialIdentifiers -> capitalize w = units "Name" -> w = "name".
Proof.
  intros H Hc. simpl in H.
  repeat (destruct H as [H|H];
          [subst w; first [reflexivity | vm_compute in Hc; discriminate Hc]|]).
  contradiction.
Qed.

(** C1, as amended: for every input, no token returned by [tokenize] has
    type Comment, StartTemplateString, EndTemplateString, StartInterpolation
    or EndInterpolation; a token of type Name is returned only with the
    lexeme "name", and it is returned for that word: [tokenize "name"] is
    the single token Name "name". *)
Theorem unused_never_emitted :
  (forall source,
      exists toks,
        tokenize source = Some toks
        /\ Forall (fun t => forall k, type t = Some k ->
                                     ~ In k unused
                                     /\ (k = TokenType.Name -> value t = "name"))
                  toks)
  /\ tokenize "name" = Some [tok "name" TokenType.Name].
Proof.
  split; [|reflexivity].
  intros source. apply tokenize_output.
  - intros v k H k' E. injection E as <-. simpl in H.
    repeat (destruct H as [H|H];
            [injection H as <- <-; split; [simpl; intuition discriminate
                                          | discriminate]|]).
    contradiction.
  - intros v k E. injection E as <-.
    split; [simpl; intuition discriminate | discriminate].
  - intros w k E.
    destruct (word_token_cases w) as [[_ Hw]|[[_ [Hin [k' [Hk [Hc Hw]]]]]|[_ [_ Hw]]]];
      rewrite Hw in E; injection E as <-.
    + split; [simpl; intuition discriminate | discriminate].
    + split; [now apply keywordTypes_not_unused|].
      intros ->. rewrite value_word_token. exact (capitalize_Name w Hin Hc).
    + split; [simpl; intuition discriminate | discriminate].
Qed.

(** C1, as stated, fails on the input "name": the word is in
    [specialIdentifiers] and its token has type Name. *)
Lemma name_is_emitted : ~ never_reserved "name".
Proof.
  intros H.
  apply (H [tok "name" TokenType.Name] (tok "name" TokenType.Name) TokenType.Name);
    [reflexivity | now left | reflexivity | simpl; tauto].
Qed.

(** C2: what the code does on "4/2".  The slash is consumed by the branch
    of the self-closing tag and no token is pushed for it, so the result is
    the two Number tokens; for every input, no BinaryOperator token has the
    lexeme "/". *)
Theorem division_is_dropped :
  tokenize "4/2" = Some [tok "4" TokenType.Number; tok "2" TokenType.Number]
  /\ forall source,
      exists toks,
        tokenize source = Some toks
        /\ Forall (fun t => type t = Some TokenType.BinaryOperator ->
                            In (value t) ["+"; "-"; "*"]%string) toks.
Proof.
  split; [reflexivity|].
  intros source. apply tokenize_output.
  - intros v k H E. injection E as ->. simpl in H. simpl.
    repeat (destruct H as [H|H];
            [injection H as <-; first [discriminate | tauto]|]).
    contradiction.
  - intros v E. discriminate.
  - intros w E.
    destruct (word_token_cases w) as [[_ Hw]|[[_ [Hin [k' [Hk [Hc Hw]]]]]|[_ [_ Hw]]]];
      rewrite Hw in E; try discriminate.
    injection E as ->. simpl in Hk. intuition discriminate.
Qed.

(** C3, as amended: a scanned word is a Number token exactly when the whole
    word reads as a numeric literal ([Number(word)] is not NaN), and an
    Identifier or keyword token otherwise; so for every input, a token
    whose lexeme is not a numeric literal is never a Number, whether or not
    it holds an alpha character.  In particular [tokenize "42abc"] is the
    single token Identifier "42abc". *)
Theorem non_numeric_word_not_Number :
  (forall w,
      exists k,
        word_token w = tok w k
        /\ if Number_isNaN w
           then k = TokenType.Identifier \/ In k keywordTypes
           else k = TokenType.Number)
  /\ (forall source,
         exists toks,
           tokenize source = Some toks
           /\ Forall (fun t => Number_isNaN (value t) = true ->
                               type t <> Some TokenType.Number) toks)
  /\ tokenize "42abc" = Some [tok "42abc" TokenType.Identifier].
Proof.
  split; [|split; [|reflexivity]].
  - intros w.
    destruct (word_token_cases w) as [[Hn Hw]|[[Hn [_ [k [Hk [_ Hw]]]]]|[Hn [_ Hw]]]];
      rewrite Hn, Hw; eexists; (split; [reflexivity|]); tauto.
  - intros source. apply tokenize_output.
    + intros v k H _ E. injection E as ->. simpl in H.
      repeat (destruct H as [H|H]; [discriminate H|]). contradiction.
    + intros v _ E. discriminate E.
    + intros w Hn E. rewrite value_word_token in Hn.
      destruct (word_token_cases w) as [[Hn' Hw]|[[_ [_ [k [Hk [_ Hw]]]]]|[_ [_ Hw]]]];
        rewrite Hw in E; simpl in E; try congruence.
      injection E as ->. simpl in Hk. intuition discriminate.
Qed.

(** C3, as stated, fails on the input "1e5": the word holds the letter e
    and is a Number token, since [Number("1e5")] is 100000. *)
Lemma exponent_word_is_Number : ~ alpha_never_Number "1e5".
Proof.
  intros H.
  apply (H [tok "1e5" TokenType.Number] (tok "1e5" TokenType.Number));
    [reflexivity | now left | reflexivity | reflexivity].
Qed.

(** C6: [tokenize "/>"] is the single token SelfClosingTag "/>", and
    [tokenize "/ >"] is the single token CloseBracket ">".  A slash
    followed by a character other than [/] and [>], or by nothing, is
    dropped by its branch with no token pushed. *)
Theorem lone_slash_is_dropped :
  tokenize "/>" = Some [tok "/>" TokenType.SelfClosingTag]
  /\ tokenize "/ >" = Some [tok ">" TokenType.CloseBracket]
  /\ (forall toks, dispatch (mkState ["/"%char] toks) = mkState [] toks)
  /\ (forall c r toks,
         dispatch (mkState ("/"%char :: c :: r) toks) =
         if Ascii.eqb c "/" then mkState (skipComment_loop r) toks
         else if Ascii.eqb c ">"
              then mkState r (toks ++ [tok "/>" TokenType.SelfClosingTag])
              else mkState (c :: r) toks).
Proof.
  split; [reflexivity|]. split; [reflexivity|]. split; [reflexivity|].
  intros c r toks.
  destruct (Ascii.eqb_spec c "/") as [->|H1].
  - rewrite (scans_dispatch _ _ _ (scan_comment r)). now rewrite app_nil_r.
  - destruct (Ascii.eqb_spec c ">") as [->|H2].
    + now rewrite (scans_dispatch _ _ _ (scan_self_closing r)).
    + rewrite (scans_dispatch ("/"%char :: c :: r) [] (c :: r)).
      * now rewrite app_nil_r.
      * apply scan_slash; simpl; now apply Ascii.eqb_neq.
Qed.

(** *** Where a word token sits in the source *)

Lemma scans_suffix l em l' : scans l em l' -> exists pre, l = pre ++ l'.
Proof.
  destruct 1 as [ | r | r | r Hr | r | r Hr1 Hr2 | c k r Hin
                | q a r Hquote Hn | q a Hquote Hn | c r Hword Hm
                | c r Hsp Hnw ].
  - now exists [].
  - rewrite skipComment_loop_dropWhile.
    exists ("/"%char :: "/"%char :: takeWhile (fun c => negb (Ascii.eqb c "010")) r).
    cbn [app]. now rewrite takeWhile_dropWhile.
  - now exists ["<"; "/"]%char.
  - now exists ["<"]%char.
  - now exists ["/"; ">"]%char.
  - now exists ["/"]%char.
  - now exists [c].
  - exists (q :: a ++ [q]). cbn [app]. now rewrite <- app_assoc.
  - exists (q :: a). now rewrite app_nil_r.
  - exists (takeWhile wordChar (c :: r)). now rewrite takeWhile_dropWhile.
  - now exists [c].
Qed.

Lemma scans_at_most_one l em l' :
  scans l em l' -> em = [] \/ exists t, em = [t].
Proof. destruct 1; eauto. Qed.

(** A pass that pushes a token with the type of a word has read that
    word at the head of the cursor and stopped where no word character
    follows. *)
Lemma scans_word_pass l t l' k :
  scans l [t] l' -> type t = Some k ->
  In k (TokenType.Number :: TokenType.Identifier :: keywordTypes) ->
  l = list_ascii_of_string (value t) ++ l' /\ boundary l' = true.
Proof.
  intros Hs Ht Hk. remember [t] as em eqn:Eem.
  destruct Hs as [ | r | r | r Hr | r | r Hr1 Hr2 | c k0 r Hin
                 | q a r Hquote Hn | q a Hquote Hn | c r Hword Hm
                 | c r Hsp Hnw ];
    try discriminate Eem; injection Eem as Et; subst t.
  - exfalso. injection Ht as <-. simpl in Hk. intuition discriminate.
  - exfalso. injection Ht as <-. simpl in Hk. intuition discriminate.
  - exfalso. injection Ht as <-. simpl in Hk. intuition discriminate.
  - exfalso. injection Ht as <-. simpl in Hin, Hk.
    repeat (destruct Hin as [Hin|Hin];
            [injection Hin as <- <-; intuition discriminate|]).
    contradiction.
  - exfalso. injection Ht as <-. simpl in Hk. intuition discriminate.
  - exfalso. injection Ht as <-. simpl in Hk. intuition discriminate.
  - rewrite value_word_token, list_ascii_of_string_of_list_ascii.
    split; [symmetry; exact (takeWhile_dropWhile wordChar (c :: r))|].
    destruct (dropWhile wordChar (c :: r)) as [|y s] eqn:D; [reflexivity|].
    apply dropWhile_head in D. simpl. now rewrite D.
Qed.

(** Every token with the type of a word stands in the source as its whole
    lexeme, followed by the end of the input or by a character that is not
    a word character; the tokens after it are those of what follows. *)
Lemma runs_word_position l em :
  runs l em ->
  forall before t after k,
    em = before ++ t :: after -> type t = Some k ->
    In k (TokenType.Number :: TokenType.Identifier :: keywordTypes) ->
    exists pre post,
      l = pre ++ list_ascii_of_string (value t) ++ post
      /\ boundary post = true /\ runs post after.
Proof.
  induction 1 as [|c l em l' em' Hs Hr IH]; intros before t after k E Ht Hk.
  - destruct before; discriminate E.
  - pose proof (takeWhile_dropWhile isSpace (c :: l)) as Ews.
    destruct (scans_suffix _ _ _ Hs) as [p Ep].
    assert (Hlater : forall before',
               em' = before' ++ t :: after ->
               exists pre post,
                 c :: l = pre ++ list_ascii_of_string (value t) ++ post
                 /\ boundary post = true /\ runs post after).
    { intros before' E'.
      destruct (IH before' t after k E' Ht Hk) as [pre [post [El [Hb Hp]]]].
      exists (takeWhile isSpace (c :: l) ++ p ++ pre), post.
      repeat split; try assumption.
      rewrite <- Ews at 1. rewrite Ep, El, <- !app_assoc. reflexivity. }
    destruct (scans_at_most_one _ _ _ Hs) as [->|[t0 ->]].
    + apply (Hlater before). exact E.
    + destruct before as [|b before'].
      * injection E as -> ->.
        destruct (scans_word_pass _ _ _ _ Hs Ht Hk) as [El Hb].
        exists (takeWhile isSpace (c :: l)), l'.
        repeat split; try assumption.
        rewrite <- Ews at 1. now rewrite El.
      * injection E as -> E. now apply (Hlater before').
Qed.

(** C7: [tokenize "let"] is the single token of type Let, and
    [tokenize "letx"] is the single token Identifier "letx"; likewise
    "let2" and "let-x" are single Identifier tokens, and "elseIf" and
    "args" are the tokens ElseIf and Args, not Else and Arg.  For every input, a
    token with a keyword type has the whole reserved word as its lexeme:
    the lexeme is in [specialIdentifiers] and its capitalised form is the
    name of the token's type.  And for every input, a token with a keyword
    type is never the beginning of a longer word: its lexeme stands in the
    source followed by the end of the input or by a character that is not
    a word character, and the tokens returned after it are the tokens of
    what follows it there. *)
Theorem keyword_is_whole_word :
  tokenize "let" = Some [tok "let" TokenType.Let]
  /\ tokenize "letx" = Some [tok "letx" TokenType.Identifier]
  /\ (forall source,
      exists toks,
        tokenize source = Some toks
        /\ Forall (fun t => forall k,
                       type t = Some k -> In k keywordTypes ->
                       In (value t) specialIdentifiers
                       /\ capitalize (value t) = units (TokenType.name k))
                  toks)
  /\ tokenize "let2" = Some [tok "let2" TokenType.Identifier]
  /\ tokenize "let-x" = Some [tok "let-x" TokenType.Identifier]
  /\ tokenize "<let2 let>" =
     Some [tok "<" TokenType.OpenBracket; tok "let2" TokenType.Identifier;
           tok "let" TokenType.Let; tok ">" TokenType.CloseBracket]
  /\ tokenize "elseIf args" =
     Some [tok "elseIf" TokenType.ElseIf; tok "args" TokenType.Args]
  /\ (forall source,
      exists toks,
        tokenize source = Some toks
        /\ forall before t after k,
            toks = before ++ t :: after ->
            type t = Some k -> In k keywordTypes ->
            exists pre post,
              list_ascii_of_string source =
              pre ++ list_ascii_of_string (value t) ++ post
              /\ boundary post = true
              /\ tokenize (string_of_list_ascii post) = Some after).
Proof.
  split; [reflexivity|]. split; [reflexivity|].
  split; [|split; [reflexivity|split; [reflexivity|split; [reflexivity|
                                                  split; [reflexivity|]]]]].
  - intros source. apply tokenize_output.
    + intros v k H k' E Hk. injection E as <-. exfalso. simpl in H, Hk.
      repeat (destruct H as [H|H]; [injection H as <- <-; intuition discriminate|]).
      contradiction.
    + intros v k E Hk. injection E as <-. exfalso. simpl in Hk.
      intuition discriminate.
    + intros w k E Hk. rewrite value_word_token.
      destruct (word_token_cases w) as [[_ Hw]|[[_ [Hin [k' [_ [Hc Hw]]]]]|[_ [_ Hw]]]];
        rewrite Hw in E; injection E as <-.
      * exfalso. simpl in Hk. intuition discriminate.
      * split; assumption.
      * exfalso. simpl in Hk. intuition discriminate.
  - intros source. destruct (tokenize_runs source) as [em [Ht Hr]].
    exists em. split; [assumption|].
    intros before t after k E Hty Hk.
    destruct (runs_word_position _ _ Hr before t after k E Hty) as [pre [post [El [Hb Hp]]]];
      [right; right; exact Hk|].
    exists pre, post. repeat split; try assumption.
    apply runs_tokenize. now rewrite list_ascii_of_string_of_list_ascii.
Qed.

(** C10: for every word of [specialIdentifiers], capitalising its first
    character gives the name of a declared enumerant, so the lookup
    [TokenType[...]] is defined on it; and for every input, every token
    returned by [tokenize] carries a [TokenType] value. *)
Theorem keyword_lookup_defined :
  Forall (fun w => exists k, capitalize w = units (TokenType.name k)
                             /\ TokenType_lookup (capitalize w) = Some k)
         specialIdentifiers
  /\ forall source,
      exists toks,
        tokenize source = Some toks
        /\ Forall (fun t => exists k, type t = Some k) toks.
Proof.
  split.
  - apply Forall_forall. intros w H.
    destruct (specialIdentifiers_lookup w H) as [k [_ [H1 H2]]]. eauto.
  - intros source. apply tokenize_output.
    + intros v k _. now exists k.
    + intros v. eexists. reflexivity.
    + intros w.
      destruct (word_token_cases w) as [[_ Hw]|[[_ [_ [k [_ [_ Hw]]]]]|[_ [_ Hw]]]];
        rewrite Hw; eexists; reflexivity.
Qed.

(** C5: an iteration started on a non-empty cursor leaves a strictly
    shorter one; [tokenize] returns on every input, whatever fuel beyond
    the input length the loop is given; the tokens returned are at most as
    many as the input characters, and their lexemes together hold at most
    as many characters as the input. *)
Theorem tokenize_terminates :
  (forall c l toks,
      List.length (src (body (mkState (c :: l) toks))) < List.length (c :: l))
  /\ forall source,
      exists toks,
        tokenize source = Some toks
        /\ (forall extra,
               loop (String.length source + extra)
                    (mkState (list_ascii_of_string source) []) = Some toks)
        /\ List.length toks <= String.length source
        /\ lexemes_length toks <= String.length source.
Proof.
  split.
  - intros c l toks. rewrite body_dispatch.
    destruct (dispatch_scans (dropWhile isSpace (c :: l)) toks) as [em [l' [Hs ->]]].
    apply pass_measure in Hs. simpl. lia.
  - intros source. destruct (tokenize_runs source) as [em [H1 H2]].
    exists em. split; [assumption|].
    pose proof (runs_measure _ _ H2) as [H3 H4].
    rewrite length_list_ascii_of_string in H3, H4.
    repeat split; try assumption.
    intros extra. rewrite (runs_loop _ _ H2); [reflexivity|].
    rewrite length_list_ascii_of_string. lia.
Qed.

(** ** Decimal digits *)

Lemma digit_not_sign c :
  isDigit c = true -> (Ascii.eqb c "+" || Ascii.eqb c "-") = false.
Proof. each_char c; intros H; try reflexivity; discriminate. Qed.

Lemma digit_not_minus c : isDigit c = true -> c <> "-"%char.
Proof. intros H ->. discriminate H. Qed.

Lemma dropWhile_digits l : forallb isDigit l = true -> dropWhile isSpace l = l.
Proof.
  destruct l as [|c l]; simpl; [reflexivity|]. intros H.
  apply andb_true_iff in H. destruct H as [H _].
  now rewrite (digit_not_space c H).
Qed.

Lemma forallb_rev (p : ascii -> bool) l :
  forallb p l = true -> forallb p (rev l) = true.
Proof.
  rewrite !forallb_forall. intros H x Hx. apply H. now apply in_rev.
Qed.

Lemma trim_digits l : forallb isDigit l = true -> trim l = l.
Proof.
  intros H. unfold trim. rewrite (dropWhile_digits l H).
  rewrite (dropWhile_digits (rev l)); [apply rev_involutive | now apply forallb_rev].
Qed.

(** A non-empty run of decimal digits reads as a number. *)
Lemma digits_Number l :
  l <> [] -> forallb isDigit l = true ->
  Number_isNaN (string_of_list_ascii l) = false.
Proof.
  intros Hne H. unfold Number_isNaN.
  rewrite list_ascii_of_string_of_list_ascii, (trim_digits l H).
  assert (Hs : dropSign l = l).
  { destruct l as [|c l]; [reflexivity|]. simpl in *.
    apply andb_true_iff in H. destruct H as [H _].
    now rewrite (digit_not_sign c H). }
  assert (Hu : unsignedDecimal l = true).
  { unfold unsignedDecimal.
    rewrite (takeWhile_all _ _ H), (dropWhile_all _ _ H).
    destruct l; [congruence | apply orb_true_r]. }
  rewrite Hs, Hu, orb_true_r. reflexivity.
Qed.

Lemma forallb_digits_wordChar l :
  forallb isDigit l = true -> forallb wordChar l = true.
Proof.
  rewrite !forallb_forall. intros H x Hx. apply digit_wordChar. now apply H.
Qed.

(** C4, as amended: for an input made of a minus sign and, right after it,
    one or more decimal digits, [tokenize] returns two tokens: the minus
    sign as BinaryOperator "-", then the digits as one Number token.  (The
    operator branch comes before the word branch, so a minus sign never
    starts a word.) *)
Theorem leading_minus_is_operator (digits : string) :
  digits <> EmptyString ->
  forallb isDigit (list_ascii_of_string digits) = true ->
  tokenize ("-" ++ digits) =
  Some [tok "-" TokenType.BinaryOperator; tok digits TokenType.Number].
Proof.
  intros Hne Hd. apply runs_tokenize. simpl.
  destruct (list_ascii_of_string digits) as [|d ds] eqn:E.
  { destruct digits; [congruence | discriminate E]. }
  assert (Hdig : isDigit d = true)
    by (simpl in Hd; now apply andb_true_iff in Hd).
  apply (runs_step "-" (d :: ds) [tok "-" TokenType.BinaryOperator] (d :: ds)
                   [tok digits TokenType.Number]).
  - change (dropWhile isSpace ("-"%char :: d :: ds)) with ("-"%char :: d :: ds).
    apply scan_single. simpl. tauto.
  - apply (runs_step d ds [tok digits TokenType.Number] [] []); [|constructor].
    rewrite (dropWhile_digits _ Hd).
    assert (Hw : word_token digits = tok digits TokenType.Number).
    { unfold word_token. rewrite <- (string_of_list_ascii_of_string digits) at 1.
      rewrite E, digits_Number; [reflexivity | congruence | assumption]. }
    rewrite <- Hw.
    pose proof (scan_word d ds (digit_wordChar d Hdig) (digit_not_minus d Hdig)) as Hs.
    rewrite (takeWhile_all _ _ (forallb_digits_wordChar _ Hd)) in Hs.
    rewrite (dropWhile_all _ _ (forallb_digits_wordChar _ Hd)) in Hs.
    assert (Ed : string_of_list_ascii (d :: ds) = digits)
      by (rewrite <- E; apply string_of_list_ascii_of_string).
    rewrite Ed in Hs. exact Hs.
Qed.

Lemma leading_minus_is_operator_witness :
  tokenize "-5" = Some [tok "-" TokenType.BinaryOperator; tok "5" TokenType.Number].
Proof.
  apply (leading_minus_is_operator "5"); [discriminate | reflexivity].
Defined.

(** C4, as stated, fails on the input "-5": the result has two tokens. *)
Lemma minus_is_not_absorbed : ~ minus_absorbed "5".
Proof. intros [t [H _]]. discriminate H. Qed.

(** ** String literals *)

Lemma quote_not_space q : isQuote q = true -> isSpace q = false.
Proof. intros H. destruct (isQuote_cases q H) as [->| ->]; reflexivity. Qed.

(** C8: for every input that begins with a quote character [q], either [q]
    does not occur again and [tokenize] returns the single StringLiteral
    token whose lexeme is the whole rest of the input, or the rest is
    [a], [q], [b] with no [q] in [a], and [tokenize] returns the
    StringLiteral token with lexeme [a], unchanged, followed by the tokens
    of [b]. *)
Theorem string_literal_first (q : ascii) (rest : string) :
  isQuote q = true ->
  (~ In q (list_ascii_of_string rest)
   /\ tokenize (String q rest) = Some [tok rest TokenType.StringLiteral])
  \/ (exists a b toks,
         rest = (a ++ String q b)%string
         /\ ~ In q (list_ascii_of_string a)
         /\ tokenize b = Some toks
         /\ tokenize (String q rest) =
            Some (tok a TokenType.StringLiteral :: toks)).
Proof.
  intros Hq.
  destruct (split_first q (list_ascii_of_string rest)) as [Hn | [a [b [E Hn]]]].
  - left. split; [assumption|]. apply runs_tokenize. simpl.
    apply (runs_step q _ [tok rest TokenType.StringLiteral] [] []); [|constructor].
    cbn [dropWhile]. rewrite (quote_not_space q Hq).
    rewrite <- (string_of_list_ascii_of_string rest) at 2.
    now apply scan_string_open.
  - right. exists (string_of_list_ascii a), (string_of_list_ascii b).
    destruct (tokenize_runs (string_of_list_ascii b)) as [toks [Ht Hr]].
    exists toks.
    assert (Er : rest = (string_of_list_ascii a ++ String q (string_of_list_ascii b))%string).
    { rewrite <- (string_of_list_ascii_of_string rest), E.
      clear. induction a as [|x a IH]; simpl; [reflexivity | now rewrite IH]. }
    rewrite list_ascii_of_string_of_list_ascii in *.
    repeat split; try assumption.
    apply runs_tokenize. simpl. rewrite E.
    apply (runs_step q _ [tok (string_of_list_ascii a) TokenType.StringLiteral] b toks);
      [|assumption].
    cbn [dropWhile]. rewrite (quote_not_space q Hq).
    now apply scan_string.
Qed.

Lemma string_literal_first_witness :
  (~ In "'"%char (list_ascii_of_string "ab'c")
   /\ tokenize "'ab'c" = Some [tok "ab'c" TokenType.StringLiteral])
  \/ (exists a b toks,
         "ab'c" = (a ++ String "'" b)%string
         /\ ~ In "'"%char (list_ascii_of_string a)
         /\ tokenize b = Some toks
         /\ tokenize "'ab'c" = Some (tok a TokenType.StringLiteral :: toks)).
Proof. apply (string_literal_first "'" "ab'c"). reflexivity. Defined.

(** ** White space around the input *)

Lemma dropWhile_app_all p (a b : list ascii) :
  forallb p a = true -> dropWhile p (a ++ b) = dropWhile p b.
Proof.
  induction a as [|x a IH]; simpl; [reflexivity|].
  destruct (p x); simpl; [exact IH | discriminate].
Qed.

Lemma dropWhile_app_cons p (a b : list ascii) x r :
  dropWhile p a = x :: r -> dropWhile p (a ++ b) = (x :: r) ++ b.
Proof.
  induction a as [|y a IH]; simpl; [discriminate|].
  destruct (p y); [exact IH | intros E; injection E as -> ->; reflexivity].
Qed.

Lemma dropWhile_nil_forallb p (a : list ascii) :
  dropWhile p a = [] -> forallb p a = true.
Proof.
  induction a as [|y a IH]; simpl; [reflexivity|].
  destruct (p y); simpl; [exact IH | discriminate].
Qed.

Lemma forallb_dropWhile (p f : ascii -> bool) (a : list ascii) :
  forallb f a = true -> forallb f (dropWhile p a) = true.
Proof.
  induction a as [|y a IH]; simpl; [reflexivity|]. intros H.
  apply andb_true_iff in H. destruct H as [H1 H2].
  destruct (p y); simpl; [now apply IH | now rewrite H1, H2].
Qed.

(** A scan that stops at the first character failing [p] is not affected
    by what follows a text whose characters all fail [p]. *)
Lemma takeWhile_app_stops p (a w : list ascii) :
  forallb (fun x => negb (p x)) w = true ->
  takeWhile p (a ++ w) = takeWhile p a
  /\ dropWhile p (a ++ w) = dropWhile p a ++ w.
Proof.
  intros Hw. induction a as [|y a [IH1 IH2]]; simpl.
  - destruct w as [|x w]; simpl in *; [split; reflexivity|].
    apply andb_true_iff in Hw. destruct Hw as [Hx _].
    apply negb_true_iff in Hx. rewrite Hx. split; reflexivity.
  - destruct (p y); [rewrite IH1, IH2|]; split; reflexivity.
Qed.

Lemma blank_not_wordChar w :
  forallb isSpace w = true -> forallb (fun x => negb (wordChar x)) w = true.
Proof.
  rewrite !forallb_forall. intros H x Hx.
  now rewrite (space_not_wordChar x (H x Hx)).
Qed.

Lemma hd_app_blank r w x :
  forallb isSpace w = true -> isSpace x = false ->
  is_chr (hd_error r) x = false -> is_chr (hd_error (r ++ w)) x = false.
Proof.
  intros Hw Hx Hr. destruct r as [|y r]; [|exact Hr].
  destruct w as [|y w]; [reflexivity|]. simpl in *.
  apply andb_true_iff in Hw. destruct Hw as [Hy _].
  apply Ascii.eqb_neq. intros ->. congruence.
Qed.

Lemma not_In_existsb q (a : list ascii) :
  ~ In q a -> existsb (Ascii.eqb q) a = false.
Proof.
  intros H. destruct (existsb (Ascii.eqb q) a) eqn:E; [|reflexivity].
  apply existsb_exists in E. destruct E as [x [Hx He]].
  apply Ascii.eqb_eq in He. now subst.
Qed.

Lemma runs_blank w : forallb isSpace w = true -> runs w [].
Proof.
  intros H. destruct w as [|c w]; [constructor|].
  apply (runs_step c w [] [] []); [|constructor].
  rewrite (dropWhile_all _ _ H). constructor.
Qed.

Lemma runs_leading w l em :
  forallb isSpace w = true -> runs l em -> runs (w ++ l) em.
Proof.
  intros Hw Hr. destruct w as [|x w]; [exact Hr|].
  destruct Hr as [|c l em l' em' Hs Hr].
  - rewrite app_nil_r. now apply runs_blank.
  - cbn [app]. apply runs_step with (l' := l'); [|assumption].
    change (x :: w ++ c :: l) with ((x :: w) ++ c :: l).
    now rewrite (dropWhile_app_all _ _ _ Hw).
Qed.

(** One pass, with white space added at the end of the cursor: unless the
    pass opens a string literal that is not closed, it emits the same
    tokens and leaves the same cursor, followed by white space. *)
Lemma scans_trailing x r em l' w :
  scans (x :: r) em l' ->
  isQuote x && negb (existsb (Ascii.eqb x) r) = false ->
  forallb isSpace w = true ->
  exists w', forallb isSpace w' = true /\ scans (x :: r ++ w) em (l' ++ w').
Proof.
  intros Hs Hq Hw. remember (x :: r) as l eqn:El.
  destruct Hs as [ | r0 | r0 | r0 Hr | r0 | r0 Hr1 Hr2 | c k r0 Hin
                 | q a r0 Hquote Hn | q a Hquote Hn | c r0 Hword Hm
                 | c r0 Hsp Hnw ];
    try discriminate El; injection El as <- <-.
  - rewrite !skipComment_loop_dropWhile. cbn [app].
    destruct (dropWhile (fun c => negb (Ascii.eqb c "010")) r0) as [|y r1] eqn:D.
    + exists (dropWhile (fun c => negb (Ascii.eqb c "010")) w).
      split; [now apply forallb_dropWhile|].
      pose proof (scan_comment (r0 ++ w)) as H.
      rewrite skipComment_loop_dropWhile in H.
      rewrite (dropWhile_app_all _ r0 w (dropWhile_nil_forallb _ _ D)) in H.
      exact H.
    + exists w. split; [assumption|].
      pose proof (scan_comment (r0 ++ w)) as H.
      rewrite skipComment_loop_dropWhile in H.
      rewrite (dropWhile_app_cons _ r0 w _ _ D) in H. exact H.
  - exists w. split; [assumption | constructor].
  - exists w. split; [assumption|]. apply scan_open_bracket.
    now apply hd_app_blank.
  - exists w. split; [assumption | constructor].
  - exists w. split; [assumption|].
    apply scan_slash; now apply hd_app_blank.
  - exists w. split; [assumption | now apply scan_single].
  - exists w. split; [assumption|].
    rewrite <- app_assoc. cbn [app]. now apply scan_string.
  - exfalso. rewrite Hquote, (not_In_existsb _ _ Hn) in Hq. discriminate Hq.
  - exists w. split; [assumption|].
    pose proof (scan_word c (r0 ++ w) Hword Hm) as H.
    destruct (takeWhile_app_stops wordChar (c :: r0) w (blank_not_wordChar w Hw))
      as [E1 E2].
    cbn [app] in E1, E2. rewrite E1, E2 in H. exact H.
  - exists w. split; [assumption | now apply scan_other].
Qed.

Lemma runs_trailing l em :
  runs l em ->
  forall fuel w,
    List.length l <= fuel -> unterminated_loop fuel l = false ->
    forallb isSpace w = true -> runs (l ++ w) em.
Proof.
  induction 1 as [|c l em l' em' Hs Hr IH]; intros fuel w Hf Hu Hw.
  - now apply runs_blank.
  - destruct fuel as [|fuel]; [simpl in Hf; lia|].
    cbn [unterminated_loop] in Hu.
    rewrite skipWhitespace_loop_dropWhile, body_dispatch in Hu.
    rewrite (scans_dispatch _ _ _ Hs) in Hu. cbn [src] in Hu.
    pose proof (pass_measure _ _ _ _ Hs) as [_ [_ Hl]].
    destruct (dropWhile isSpace (c :: l)) as [|x r] eqn:D.
    + inversion Hs; subst. inversion Hr; subst.
      apply runs_blank. rewrite forallb_app, Hw, andb_true_r.
      now apply dropWhile_nil_forallb.
    + apply orb_false_iff in Hu. destruct Hu as [Hq Hu].
      destruct (scans_trailing _ _ _ _ w Hs Hq Hw) as [w' [Hw' Hs']].
      cbn [app]. apply runs_step with (l' := l' ++ w').
      * change (c :: l ++ w) with ((c :: l) ++ w).
        rewrite (dropWhile_app_cons _ _ w _ _ D). exact Hs'.
      * apply (IH fuel); [simpl in Hf; lia | assumption | assumption].
Qed.

(** C9, as amended: white space before the input never changes the tokens,
    [tokenize (w1 ++ s) = tokenize s]; white space after it does not change
    them either, [tokenize (w1 ++ s ++ w2) = tokenize s], provided [s]
    leaves no string literal without its closing quote (in such a literal
    the white space that follows becomes part of the lexeme). *)
Theorem surrounding_whitespace (source w1 w2 : string) :
  blank w1 = true -> blank w2 = true ->
  tokenize (w1 ++ source) = tokenize source
  /\ (unterminated source = false ->
      tokenize (w1 ++ source ++ w2) = tokenize source).
Proof.
  unfold blank, unterminated. intros H1 H2.
  destruct (tokenize_runs source) as [em [Ht Hr]]. rewrite Ht. split.
  - apply runs_tokenize. rewrite list_ascii_of_string_app.
    now apply runs_leading.
  - intros Hu. apply runs_tokenize. rewrite !list_ascii_of_string_app.
    apply runs_leading; [assumption|].
    apply (runs_trailing _ _ Hr (String.length source));
      [rewrite length_list_ascii_of_string; lia | assumption | assumption].
Qed.

Lemma surrounding_whitespace_witness :
  tokenize "  let" = tokenize "let" /\ tokenize "  let  " = tokenize "let".
Proof.
  destruct (surrounding_whitespace "let" "  " "  " eq_refl eq_refl) as [H1 H2].
  split; [exact H1 | exact (H2 eq_refl)].
Defined.

(** C9, as stated, fails when the input ends inside a string literal: after
    a quote and the letter a, a space at the end becomes part of the
    lexeme. *)
Lemma trailing_space_in_open_string :
  ~ whitespace_invariant (dquote ++ "a") EmptyString " ".
Proof. unfold whitespace_invariant. intros H. discriminate H. Qed.

(** * Further properties of the scanner *)

(** ** Character classes *)

(** X1: [isNumeric] holds exactly of the ten decimal digits, and fails on
    [undefined]. *)
Theorem isNumeric_decimal_digit :
  (forall c, isNumeric (Some c) = isDigit c) /\ isNumeric None = false.
Proof. split; [intros c; each_char c; reflexivity | reflexivity]. Qed.

(** X2: on the code units U+0000..U+00FF, which are the characters of
    this development, [isAlpha] holds exactly of the letters A-Z and a-z,
    the underscore, the minus sign and the cased letters above U+007F (the
    micro sign, U+00C0..U+00D6, U+00D8..U+00F6 and U+00F8..U+00FF); it
    fails on [undefined].  Code units above U+00FF are not covered. *)
Theorem isAlpha_letters :
  (forall c,
      let n := code c in
      (n < 256)%N
      /\ isAlpha (Some c) =
         (between 65 90 n || between 97 122 n || N.eqb n 95 || N.eqb n 45
          || N.eqb n 181 || between 192 214 n || between 216 246 n
          || between 248 255 n)%N)
  /\ isAlpha None = false.
Proof.
  split; [intros c; each_char c; split; reflexivity | reflexivity].
Qed.

(** X3: among the characters U+0000..U+00FF, no white space character
    has a branch of its own or is a word character, and the minus sign is
    the only character that both has a branch of its own and is a word
    character. *)
Theorem character_classes_overlap (c : ascii) :
  isSpace c && special c = false
  /\ isSpace c && wordChar c = false
  /\ special c && wordChar c = Ascii.eqb c "-".
Proof. each_char c; repeat split; reflexivity. Qed.

(** X4: every enumerant is found again from its name, so the names of the
    enumeration are pairwise distinct. *)
Theorem TokenType_name_round_trip :
  (forall k, TokenType_lookup (units (TokenType.name k)) = Some k)
  /\ (forall a b, TokenType.name a = TokenType.name b -> a = b).
Proof.
  assert (H : forall k, TokenType_lookup (units (TokenType.name k)) = Some k)
    by (intros k; destruct k; reflexivity).
  split; [exact H|].
  intros a b E. pose proof (H a) as Ha. rewrite E, H in Ha. congruence.
Qed.

(** ** Inputs that give no token *)

Lemma dropWhile_not_space c l :
  isSpace c = false -> dropWhile isSpace (c :: l) = c :: l.
Proof. intros H. cbn [dropWhile]. now rewrite H. Qed.

Lemma existsb_false_not_In q (a : list ascii) :
  existsb (Ascii.eqb q) a = false -> ~ In q a.
Proof.
  intros H Hin. assert (existsb (Ascii.eqb q) a = true); [|congruence].
  apply existsb_exists. exists q. split; [assumption | apply Ascii.eqb_refl].
Qed.

(** X5: an input made of white space only, the empty input included, gives
    the empty token list. *)
Theorem blank_input_no_tokens (w : string) :
  blank w = true -> tokenize w = Some [].
Proof. intros H. apply runs_tokenize. now apply runs_blank. Qed.

Lemma blank_input_no_tokens_witness :
  tokenize (String " " (String "009" (String "010" " "))) = Some [].
Proof. apply blank_input_no_tokens. reflexivity. Defined.

(** X6: a line comment gives no token.  When [text] holds no line feed,
    the input [//text] gives the empty token list, and [//text], a line
    feed and [rest] give the tokens of [rest]. *)
Theorem line_comment_elided (text rest : string) :
  existsb (Ascii.eqb lf) (list_ascii_of_string text) = false ->
  tokenize ("//" ++ text) = Some []
  /\ tokenize ("//" ++ text ++ String lf rest) = tokenize rest.
Proof.
  intros H. apply existsb_false_not_In, not_In_forallb in H.
  unfold lf in *. split.
  - apply runs_tokenize. cbn [append list_ascii_of_string].
    apply (runs_step "/" _ [] [] []); [|constructor].
    rewrite dropWhile_not_space by reflexivity.
    pose proof (scan_comment (list_ascii_of_string text)) as Hs.
    rewrite skipComment_loop_dropWhile, (dropWhile_all _ _ H) in Hs. exact Hs.
  - destruct (tokenize_runs rest) as [em [Ht Hr]]. rewrite Ht.
    apply runs_tokenize. cbn [append list_ascii_of_string].
    rewrite list_ascii_of_string_app. cbn [list_ascii_of_string].
    apply (runs_step "/" _ [] ("010"%char :: list_ascii_of_string rest) em).
    + rewrite dropWhile_not_space by reflexivity.
      pose proof (scan_comment (list_ascii_of_string text
                                ++ "010"%char :: list_ascii_of_string rest)) as Hs.
      rewrite skipComment_loop_dropWhile in Hs.
      rewrite (dropWhile_app_stop _ _ "010"%char _ H) in Hs by reflexivity.
      exact Hs.
    + apply (runs_leading ["010"%char]); [reflexivity | assumption].
Qed.

Lemma line_comment_elided_witness :
  tokenize "// a note" = Some []
  /\ tokenize ("// a note" ++ String lf "x") = tokenize "x".
Proof. apply (line_comment_elided " a note" "x"). reflexivity. Defined.

(** X7: a character that has no branch of its own and is not a word
    character is dropped: the input gives the tokens of what follows it. *)
Theorem unrecognised_character_dropped (c : ascii) (rest : string) :
  special c = false -> wordChar c = false ->
  tokenize (String c rest) = tokenize rest.
Proof.
  intros Hs Hw. destruct (tokenize_runs rest) as [em [Ht Hr]]. rewrite Ht.
  apply runs_tokenize. cbn [list_ascii_of_string].
  destruct (isSpace c) eqn:E.
  - apply (runs_leading [c]); [simpl; now rewrite E | assumption].
  - apply (runs_step c _ [] (list_ascii_of_string rest) em); [|assumption].
    rewrite (dropWhile_not_space _ _ E). now apply scan_other.
Qed.

Lemma unrecognised_character_dropped_witness :
  tokenize "[a, b]" = tokenize "a, b]".
Proof.
  apply (unrecognised_character_dropped "[" "a, b]"); reflexivity.
Defined.

(** ** Words *)

Lemma takeWhile_app_boundary (a b : list ascii) :
  forallb wordChar a = true -> boundary b = true ->
  takeWhile wordChar (a ++ b) = a /\ dropWhile wordChar (a ++ b) = b.
Proof.
  intros Ha Hb. destruct b as [|y b].
  - rewrite app_nil_r. split; [now apply takeWhile_all | now apply dropWhile_all].
  - simpl in Hb. apply negb_true_iff in Hb.
    split; [now apply takeWhile_app_stop | now apply dropWhile_app_stop].
Qed.

Lemma wordChar_not_space c : wordChar c = true -> isSpace c = false.
Proof.
  intros H. destruct (isSpace c) eqn:E; [|reflexivity].
  rewrite (space_not_wordChar c E) in H. discriminate H.
Qed.

Lemma isWord_cases w :
  isWord w = true ->
  exists c cs, list_ascii_of_string w = c :: cs
               /\ wordChar c = true /\ c <> "-"%char
               /\ forallb wordChar (c :: cs) = true.
Proof.
  unfold isWord. destruct (list_ascii_of_string w) as [|c cs]; [discriminate|].
  intros H. apply andb_true_iff in H. destruct H as [H H3].
  apply andb_true_iff in H. destruct H as [H1 H2].
  exists c, cs. repeat split; try assumption.
  - intros ->. discriminate H2.
  - simpl. now rewrite H1, H3.
Qed.

Lemma runs_word w rest em :
  isWord w = true -> boundary rest = true -> runs rest em ->
  runs (list_ascii_of_string w ++ rest) (word_token w :: em).
Proof.
  intros Hw Hb Hr.
  destruct (isWord_cases w Hw) as [c [cs [E [Hc [Hm Hall]]]]].
  rewrite E. cbn [app].
  apply (runs_step c _ [word_token w] rest em); [|assumption].
  rewrite (dropWhile_not_space _ _ (wordChar_not_space c Hc)).
  pose proof (scan_word c (cs ++ rest) Hc Hm) as Hs.
  destruct (takeWhile_app_boundary (c :: cs) _ Hall Hb) as [E1 E2].
  cbn [app] in E1, E2. rewrite E1, E2, <- E in Hs.
  now rewrite string_of_list_ascii_of_string in Hs.
Qed.

(** X8: a word is read whole.  When [w] is a word and [rest] is empty or
    starts with a character that is not a word character, the input [w]
    followed by [rest] gives the one token that classifies [w], then the
    tokens of [rest]. *)
Theorem word_is_one_token (w rest : string) :
  isWord w = true -> boundary (list_ascii_of_string rest) = true ->
  exists toks,
    tokenize rest = Some toks
    /\ tokenize (w ++ rest) = Some (word_token w :: toks).
Proof.
  intros Hw Hb. destruct (tokenize_runs rest) as [em [Ht Hr]].
  exists em. split; [assumption|]. apply runs_tokenize.
  rewrite list_ascii_of_string_app. now apply runs_word.
Qed.

Lemma word_is_one_token_witness :
  exists toks,
    tokenize "=1" = Some toks
    /\ tokenize "foo-bar2=1" = Some (word_token "foo-bar2" :: toks).
Proof. apply (word_is_one_token "foo-bar2" "=1"); reflexivity. Defined.

Lemma reserved_word_is_word w :
  In w specialIdentifiers -> isWord w = true /\ Number_isNaN w = true.
Proof.
  intros H. simpl in H.
  repeat (destruct H as [H|H]; [subst w; split; reflexivity|]).
  contradiction.
Qed.

(** X9: every reserved word is recognised.  A word of [specialIdentifiers]
    followed by [rest], empty or starting with a character that is not a
    word character, gives one token whose type is the keyword type named
    by the capitalised word, then the tokens of [rest]. *)
Theorem reserved_word_token (w rest : string) :
  existsb (String.eqb w) specialIdentifiers = true ->
  boundary (list_ascii_of_string rest) = true ->
  exists k toks,
    In k keywordTypes
    /\ capitalize w = units (TokenType.name k)
    /\ tokenize rest = Some toks
    /\ tokenize (w ++ rest) = Some (tok w k :: toks).
Proof.
  intros Hin Hb. apply existsb_eqb_In in Hin.
  destruct (reserved_word_is_word w Hin) as [Hw Hn].
  destruct (tokenize_runs rest) as [toks [Ht Hr]].
  destruct (word_token_cases w) as [[Hn' _]|[[_ [_ [k [Hk [Hc Hk']]]]]|[_ [Hnot _]]]];
    [congruence | | contradiction].
  exists k, toks. repeat split; try assumption.
  rewrite <- Hk'. apply runs_tokenize.
  rewrite list_ascii_of_string_app. now apply runs_word.
Qed.

Lemma reserved_word_token_witness :
  exists k toks,
    In k keywordTypes
    /\ capitalize "elseIf" = units (TokenType.name k)
    /\ tokenize " x" = Some toks
    /\ tokenize "elseIf x" = Some (tok "elseIf" k :: toks).
Proof. apply (reserved_word_token "elseIf" " x"); reflexivity. Defined.

(** ** The shape of the lexemes *)

Lemma isWord_scanned c r :
  wordChar c = true -> c <> "-"%char ->
  isWord (string_of_list_ascii (takeWhile wordChar (c :: r))) = true.
Proof.
  intros Hc Hm. unfold isWord.
  rewrite list_ascii_of_string_of_list_ascii. cbn [takeWhile].
  rewrite Hc, Hc, takeWhile_forallb.
  apply Ascii.eqb_neq in Hm. now rewrite Hm.
Qed.

(** The induction principle of [tokenize_output], with what the word
    branch knows of the word it classifies. *)
Section WordOutput.

Variable P : Token -> Prop.
Hypothesis P_punctuation : forall v k, In (v, k) punctuation -> P (tok v k).
Hypothesis P_string : forall v, P (tok v TokenType.StringLiteral).
Hypothesis P_word : forall w, isWord w = true -> P (word_token w).

Lemma scans_word_output l em l' : scans l em l' -> Forall P em.
Proof.
  destruct 1 as [ | r | r | r Hr | r | r Hr1 Hr2 | c k r Hin
                | q a r Hquote Hn | q a Hquote Hn | c r Hword Hm
                | c r Hsp Hnw ];
    repeat constructor;
    try apply P_string;
    try (apply P_punctuation; simpl; tauto).
  - simpl in Hin.
    repeat (destruct Hin as [Hin|Hin];
            [inversion Hin; subst; apply P_punctuation; simpl; tauto|]).
    contradiction.
  - apply P_word. now apply isWord_scanned.
Qed.

Lemma runs_word_output l em : runs l em -> Forall P em.
Proof.
  induction 1 as [|c l em l' em' Hs Hr IH]; [constructor|].
  apply Forall_app. split; [exact (scans_word_output _ _ _ Hs) | assumption].
Qed.

Lemma tokenize_word_output source :
  exists toks, tokenize source = Some toks /\ Forall P toks.
Proof.
  destruct (tokenize_runs source) as [em [H1 H2]].
  exists em. split; [assumption | exact (runs_word_output _ _ H2)].
Qed.

End WordOutput.

Lemma word_token_type w :
  exists k, word_token w = tok w k /\ In k wordTypes.
Proof.
  unfold wordTypes.
  destruct (word_token_cases w) as [[_ Hw]|[[_ [_ [k [Hk [_ Hw]]]]]|[_ [_ Hw]]]];
    rewrite Hw; eexists; (split; [reflexivity|]); simpl; simpl in *; tauto.
Qed.

Lemma wordChar_plain c :
  wordChar c = true ->
  Ascii.eqb c "." || Ascii.eqb c "+" || isSpace c = false.
Proof. each_char c; intros H; try reflexivity; discriminate. Qed.

(** X10: for every input, a token of type Number, Identifier or a keyword
    type has a lexeme that is a word: not empty, made of letters, digits,
    underscores and minus signs only, and not starting with a minus sign.
    So such a lexeme holds no decimal point, no plus sign and no white
    space; a minus sign can stand after the first character, as in the
    Number token of "1e-5". *)
Theorem word_tokens_are_words :
  (forall source,
      exists toks,
        tokenize source = Some toks
        /\ Forall (fun t =>
                     forall k, type t = Some k -> In k wordTypes ->
                       isWord (value t) = true
                       /\ existsb (fun c => Ascii.eqb c "." || Ascii.eqb c "+"
                                            || isSpace c)
                                  (list_ascii_of_string (value t)) = false)
                  toks)
  /\ tokenize "1e-5" = Some [tok "1e-5" TokenType.Number]
  /\ tokenize "3.14" = Some [tok "3" TokenType.Number; tok "14" TokenType.Number].
Proof.
  split; [|split; reflexivity].
  intros source. apply tokenize_word_output.
  - intros v k H k' E Hk. injection E as <-. exfalso. simpl in H, Hk.
    repeat (destruct H as [H|H];
            [injection H as <- <-; intuition discriminate|]).
    contradiction.
  - intros v k E Hk. injection E as <-. exfalso. simpl in Hk.
    intuition discriminate.
  - intros w Hw k _ _. rewrite value_word_token. split; [assumption|].
    destruct (isWord_cases w Hw) as [c [cs [E [_ [_ Hall]]]]]. rewrite E.
    destruct (existsb _ (c :: cs)) eqn:Ex; [|reflexivity].
    apply existsb_exists in Ex. destruct Ex as [x [Hx Hbad]].
    rewrite forallb_forall in Hall. specialize (Hall x Hx).
    rewrite (wordChar_plain x Hall) in Hbad. discriminate Hbad.
Qed.

(** X11: for every input, the type of a punctuation or operator token
    fixes its lexeme: the pair is in the table [punctuation], so a
    BinaryOperator is one of [+], [-], [*], an EndBracket is [</], and so
    on. *)
Theorem punctuation_lexemes (source : string) :
  exists toks,
    tokenize source = Some toks
    /\ Forall (fun t => forall k, type t = Some k ->
                                  In k (map snd punctuation) ->
                                  In (value t, k) punctuation) toks.
Proof.
  apply tokenize_output.
  - intros v k H k' E _. injection E as <-. exact H.
  - intros v k E Hk. injection E as <-. exfalso. simpl in Hk.
    intuition discriminate.
  - intros w k E Hk. exfalso.
    destruct (word_token_type w) as [k' [Hw Hk']].
    rewrite Hw in E. injection E as <-. simpl in Hk, Hk'.
    repeat (destruct Hk as [Hk|Hk]; [subst k'; intuition discriminate|]).
    contradiction.
Qed.

(** X12: for every input, only a StringLiteral token can have an empty
    lexeme or a lexeme with white space in it. *)
Theorem lexemes_not_blank (source : string) :
  exists toks,
    tokenize source = Some toks
    /\ Forall (fun t => type t <> Some TokenType.StringLiteral ->
                        value t <> EmptyString
                        /\ existsb isSpace (list_ascii_of_string (value t)) = false)
              toks.
Proof.
  apply tokenize_word_output.
  - intros v k H _. simpl in H.
    repeat (destruct H as [H|H];
            [injection H as <- <-; split; [discriminate | reflexivity]|]).
    contradiction.
  - intros v H. now elim H.
  - intros w Hw _. rewrite value_word_token.
    destruct (isWord_cases w Hw) as [c [cs [E [_ [_ Hall]]]]].
    split; [intros ->; discriminate E|].
    rewrite E. destruct (existsb isSpace (c :: cs)) eqn:Ex; [|reflexivity].
    apply existsb_exists in Ex. destruct Ex as [x [Hx Hsp]].
    rewrite forallb_forall in Hall. specialize (Hall x Hx).
    rewrite (space_not_wordChar x Hsp) in Hall. discriminate Hall.
Qed.

(** ** The lexemes come from the input, in order *)

Lemma subseq_refl l : subseq l l.
Proof. induction l; constructor; assumption. Qed.

Lemma subseq_nil_l l : subseq [] l.
Proof. induction l; constructor; assumption. Qed.

Lemma subseq_app a b c d : subseq a b -> subseq c d -> subseq (a ++ c) (b ++ d).
Proof.
  induction 1 as [|x a b H IH|x a b H IH]; intros Hcd; simpl;
    [assumption | constructor; now apply IH | constructor; now apply IH].
Qed.

Lemma subseq_trans a b c : subseq a b -> subseq b c -> subseq a c.
Proof.
  intros Hab Hbc. revert a Hab.
  induction Hbc as [|x b c H IH|x b c H IH]; intros a Hab.
  - assumption.
  - constructor. now apply IH.
  - remember (x :: b) as l eqn:El.
    destruct Hab as [|y a b' Hab|y a b' Hab]; [discriminate El| |];
      injection El as -> ->; constructor; now apply IH.
Qed.

Lemma subseq_dropWhile p l : subseq (dropWhile p l) l.
Proof.
  induction l as [|c l IH]; simpl; [constructor|].
  destruct (p c); [now constructor | apply subseq_refl].
Qed.

Lemma lexeme_chars_app a b : lexeme_chars (a ++ b) = lexeme_chars a ++ lexeme_chars b.
Proof. unfold lexeme_chars. apply flat_map_app. Qed.

(** One pass: the characters of the token pushed, then the cursor left,
    are the cursor with some characters left out. *)
Lemma scans_subseq l em l' : scans l em l' -> subseq (lexeme_chars em ++ l') l.
Proof.
  unfold lexeme_chars.
  destruct 1 as [ | r | r | r Hr | r | r Hr1 Hr2 | c k r Hin
                | q a r Hquote Hn | q a Hquote Hn | c r Hword Hm
                | c r Hsp Hnw ];
    cbn [flat_map value tok app list_ascii_of_string];
    rewrite ?value_word_token, ?list_ascii_of_string_of_list_ascii, ?app_nil_r.
  - constructor.
  - do 2 constructor. rewrite skipComment_loop_dropWhile. apply subseq_dropWhile.
  - apply subseq_refl.
  - apply subseq_refl.
  - apply subseq_refl.
  - constructor. apply subseq_refl.
  - apply subseq_refl.
  - constructor. apply subseq_app; [apply subseq_refl|].
    constructor. apply subseq_refl.
  - constructor. apply subseq_refl.
  - rewrite takeWhile_dropWhile. apply subseq_refl.
  - constructor. apply subseq_refl.
Qed.

Lemma runs_subseq l em : runs l em -> subseq (lexeme_chars em) l.
Proof.
  induction 1 as [|c l em l' em' Hs Hr IH]; [constructor|].
  rewrite lexeme_chars_app.
  apply subseq_trans with (b := dropWhile isSpace (c :: l));
    [|apply subseq_dropWhile].
  apply subseq_trans with (b := lexeme_chars em ++ l');
    [|now apply scans_subseq].
  apply subseq_app; [apply subseq_refl | assumption].
Qed.

(** X13: for every input, the lexemes of the tokens returned, put end to
    end, are the input with some characters left out: each lexeme is made
    of input characters, in their order, and the tokens follow the order of
    the source. *)
Theorem lexemes_in_source_order (source : string) :
  exists toks,
    tokenize source = Some toks
    /\ subseq (lexeme_chars toks) (list_ascii_of_string source).
Proof.
  destruct (tokenize_runs source) as [em [H1 H2]].
  exists em. split; [assumption | now apply runs_subseq].
Qed.

(** ** Two texts on separate lines *)

Lemma takeWhile_app_head p (a s : list ascii) :
  match s with [] => True | y :: _ => p y = false end ->
  takeWhile p (a ++ s) = takeWhile p a
  /\ dropWhile p (a ++ s) = dropWhile p a ++ s.
Proof.
  intros Hs. induction a as [|y a [IH1 IH2]]; simpl.
  - destruct s as [|x s]; simpl; [split; reflexivity|].
    rewrite Hs. split; reflexivity.
  - destruct (p y); [rewrite IH1, IH2|]; split; reflexivity.
Qed.

Lemma line_end_head w (b : list ascii) :
  forallb isSpace w = true ->
  exists y s, w ++ "010"%char :: b = y :: s /\ isSpace y = true.
Proof.
  intros Hw. destruct w as [|y w]; simpl in *; [now eauto|].
  apply andb_true_iff in Hw. destruct Hw as [Hy _]. eauto.
Qed.

Lemma hd_app_line_end r w b x :
  forallb isSpace w = true -> isSpace x = false ->
  is_chr (hd_error r) x = false ->
  is_chr (hd_error (r ++ w ++ "010"%char :: b)) x = false.
Proof.
  intros Hw Hx Hr. destruct r as [|y r]; [|exact Hr].
  destruct (line_end_head w b Hw) as [y [s [-> Hy]]]. simpl.
  apply Ascii.eqb_neq. intros ->. congruence.
Qed.

Lemma skipComment_line_end w (b : list ascii) :
  forallb isSpace w = true ->
  exists w', forallb isSpace w' = true
             /\ dropWhile (fun c => negb (Ascii.eqb c "010")) (w ++ "010"%char :: b)
                = w' ++ "010"%char :: b.
Proof.
  induction w as [|y w IH]; intros Hw.
  - exists []. split; reflexivity.
  - simpl in Hw. apply andb_true_iff in Hw. destruct Hw as [Hy Hw].
    cbn [app dropWhile]. destruct (negb (Ascii.eqb y "010")).
    + now apply IH.
    + exists (y :: w). split; [simpl; now rewrite Hy, Hw | reflexivity].
Qed.

(** One pass, with the end of the line and another text after the cursor:
    unless the pass opens a string literal that is not closed, it emits the
    same tokens and stops before the line feed. *)
Lemma scans_before_line_end x r em l' w b :
  scans (x :: r) em l' ->
  isQuote x && negb (existsb (Ascii.eqb x) r) = false ->
  forallb isSpace w = true ->
  exists w', forallb isSpace w' = true
             /\ scans (x :: r ++ w ++ "010"%char :: b) em
                      (l' ++ w' ++ "010"%char :: b).
Proof.
  intros Hs Hq Hw. remember (x :: r) as l eqn:El.
  destruct Hs as [ | r0 | r0 | r0 Hr | r0 | r0 Hr1 Hr2 | c k r0 Hin
                 | q a r0 Hquote Hn | q a Hquote Hn | c r0 Hword Hm
                 | c r0 Hsp Hnw ];
    try discriminate El; injection El as <- <-.
  - rewrite !skipComment_loop_dropWhile. cbn [app].
    pose proof (scan_comment (r0 ++ w ++ "010"%char :: b)) as H.
    rewrite skipComment_loop_dropWhile in H.
    destruct (dropWhile (fun c => negb (Ascii.eqb c "010")) r0) as [|y r1] eqn:D.
    + destruct (skipComment_line_end w b Hw) as [w' [Hw' E]].
      exists w'. split; [assumption|].
      rewrite (dropWhile_app_all _ r0 _ (dropWhile_nil_forallb _ _ D)), E in H.
      exact H.
    + exists w. split; [assumption|].
      rewrite (dropWhile_app_cons _ r0 _ _ _ D) in H. exact H.
  - exists w. split; [assumption | constructor].
  - exists w. split; [assumption|]. apply scan_open_bracket.
    now apply hd_app_line_end.
  - exists w. split; [assumption | constructor].
  - exists w. split; [assumption|].
    apply scan_slash; now apply hd_app_line_end.
  - exists w. split; [assumption | now apply scan_single].
  - exists w. split; [assumption|].
    rewrite <- app_assoc. cbn [app]. now apply scan_string.
  - exfalso. rewrite Hquote, (not_In_existsb _ _ Hn) in Hq. discriminate Hq.
  - exists w. split; [assumption|].
    pose proof (scan_word c (r0 ++ w ++ "010"%char :: b) Hword Hm) as H.
    destruct (takeWhile_app_head wordChar (c :: r0) (w ++ "010"%char :: b)) as [E1 E2].
    { destruct (line_end_head w b Hw) as [y [s [-> Hy]]].
      now apply space_not_wordChar. }
    cbn [app] in E1, E2. rewrite E1, E2 in H. exact H.
  - exists w. split; [assumption | now apply scan_other].
Qed.

Lemma runs_line_end w b emb :
  forallb isSpace w = true -> runs b emb -> runs (w ++ "010"%char :: b) emb.
Proof.
  intros Hw Hr. change ("010"%char :: b) with (["010"%char] ++ b).
  rewrite app_assoc. apply runs_leading; [|assumption].
  rewrite forallb_app, Hw. reflexivity.
Qed.

Lemma runs_before_line_end b emb l em :
  runs b emb -> runs l em ->
  forall fuel w,
    List.length l <= fuel -> unterminated_loop fuel l = false ->
    forallb isSpace w = true ->
    runs (l ++ w ++ "010"%char :: b) (em ++ emb).
Proof.
  intros Hb.
  induction 1 as [|c l em l' em' Hs Hr IH]; intros fuel w Hf Hu Hw.
  - now apply runs_line_end.
  - destruct fuel as [|fuel]; [simpl in Hf; lia|].
    cbn [unterminated_loop] in Hu.
    rewrite skipWhitespace_loop_dropWhile, body_dispatch in Hu.
    rewrite (scans_dispatch _ _ _ Hs) in Hu. cbn [src] in Hu.
    pose proof (pass_measure _ _ _ _ Hs) as [_ [_ Hl]].
    destruct (dropWhile isSpace (c :: l)) as [|x r] eqn:D.
    + inversion Hs; subst. inversion Hr; subst. cbn [app].
      change (c :: l ++ w ++ "010"%char :: b)
        with ((c :: l) ++ w ++ "010"%char :: b).
      apply runs_leading; [now apply dropWhile_nil_forallb|].
      now apply runs_line_end.
    + apply orb_false_iff in Hu. destruct Hu as [Hq Hu].
      destruct (scans_before_line_end _ _ _ _ w b Hs Hq Hw) as [w' [Hw' Hs']].
      cbn [app]. rewrite <- app_assoc.
      apply runs_step with (l' := l' ++ w' ++ "010"%char :: b).
      * change (c :: l ++ w ++ "010"%char :: b)
          with ((c :: l) ++ w ++ "010"%char :: b).
        rewrite (dropWhile_app_cons _ _ _ _ _ D). exact Hs'.
      * apply (IH fuel); [simpl in Hf; lia | assumption | assumption].
Qed.

(** X14: two texts on separate lines are tokenized one after the other.
    When [sep] is white space with a line feed in it and [a] leaves no
    string literal without its closing quote, the tokens of [a], [sep], [b]
    are the tokens of [a] followed by the tokens of [b]. *)
Theorem line_break_separates (a sep b : string) :
  blank sep = true ->
  existsb (Ascii.eqb lf) (list_ascii_of_string sep) = true ->
  unterminated a = false ->
  exists ta tb,
    tokenize a = Some ta /\ tokenize b = Some tb
    /\ tokenize (a ++ sep ++ b) = Some (ta ++ tb).
Proof.
  unfold blank, unterminated, lf. intros Hsep Hlf Hu.
  destruct (tokenize_runs a) as [ta [Hta Hra]].
  destruct (tokenize_runs b) as [tb [Htb Hrb]].
  exists ta, tb. repeat split; try assumption.
  apply existsb_exists in Hlf. destruct Hlf as [y [Hy Ey]].
  apply Ascii.eqb_eq in Ey. subst y.
  destruct (in_split _ _ Hy) as [w1 [w2 E]].
  rewrite E, forallb_app in Hsep. apply andb_true_iff in Hsep.
  destruct Hsep as [H1 H2]. cbn [forallb] in H2.
  apply andb_true_iff in H2. destruct H2 as [_ H2].
  apply runs_tokenize. rewrite !list_ascii_of_string_app, E.
  rewrite <- app_assoc. cbn [app].
  apply (runs_before_line_end _ _ _ _ (runs_leading w2 _ _ H2 Hrb) Hra
                              (String.length a));
    [rewrite length_list_ascii_of_string; lia | assumption | assumption].
Qed.

Lemma line_break_separates_witness :
  exists ta tb,
    tokenize "x = 1 // one" = Some ta /\ tokenize "<y />" = Some tb
    /\ tokenize ("x = 1 // one" ++ String lf "  " ++ "<y />") = Some (ta ++ tb).
Proof.
  apply (line_break_separates "x = 1 // one" (String lf "  ") "<y />");
    reflexivity.
Defined.

(** ** Punctuation at the head of the input *)

Lemma runs_head c l em l' em' :
  isSpace c = false -> scans (c :: l) em l' -> runs l' em' ->
  runs (c :: l) (em ++ em').
Proof.
  intros Hc Hs Hr. apply runs_step with (l' := l'); [|assumption].
  now rewrite (dropWhile_not_space _ _ Hc).
Qed.

(** X15: the closing-tag marker, the self-closing marker and the nine
    one-character tokens do not depend on what follows: the input made of
    one of them and [rest] gives that token, then the tokens of [rest]. *)
Theorem punctuation_prefix :
  Forall (fun p : string * TokenType.t =>
            forall rest,
              exists toks,
                tokenize rest = Some toks
                /\ tokenize (fst p ++ rest) = Some (tok (fst p) (snd p) :: toks))
         (("</", TokenType.EndBracket) :: ("/>", TokenType.SelfClosingTag)
          :: map (fun q => (String (fst q) EmptyString, snd q)) singles).
Proof.
  assert (Hsingle : forall c k rest,
             In (c, k) singles -> isSpace c = false ->
             exists toks,
               tokenize rest = Some toks
               /\ tokenize (String c rest) = Some (tok (String c EmptyString) k :: toks)).
  { intros c k rest Hin Hc. destruct (tokenize_runs rest) as [em [Ht Hr]].
    exists em. split; [assumption|]. apply runs_tokenize.
    apply (runs_head c (list_ascii_of_string rest) [tok (String c EmptyString) k] (list_ascii_of_string rest) em Hc);
      [now apply scan_single | assumption]. }
  repeat constructor; cbn [fst snd append]; intros rest;
    try (apply Hsingle; [simpl; tauto | reflexivity]);
    destruct (tokenize_runs rest) as [em [Ht Hr]];
    exists em; (split; [assumption|]); apply runs_tokenize.
  - apply (runs_head "<" ("/"%char :: (list_ascii_of_string rest))
                     [tok "</" TokenType.EndBracket] (list_ascii_of_string rest) em);
      [reflexivity | constructor | assumption].
  - apply (runs_head "/" (">"%char :: (list_ascii_of_string rest))
                     [tok "/>" TokenType.SelfClosingTag] (list_ascii_of_string rest) em);
      [reflexivity | constructor | assumption].
Qed.

(** X16: the opening bracket looks one character ahead.  Followed by a
    slash it gives EndBracket and takes the slash with it; followed by any
    other character it gives OpenBracket and that character is scanned
    next. *)
Theorem open_bracket_lookahead (c : ascii) (rest : string) :
  exists toks_c toks,
    tokenize (String c rest) = Some toks_c
    /\ tokenize rest = Some toks
    /\ tokenize (String "<" (String c rest)) =
       Some (if Ascii.eqb c "/"
             then tok "</" TokenType.EndBracket :: toks
             else tok "<" TokenType.OpenBracket :: toks_c).
Proof.
  destruct (tokenize_runs (String c rest)) as [tc [Htc Hrc]].
  destruct (tokenize_runs rest) as [tr [Htr Hrr]].
  exists tc, tr. repeat split; try assumption.
  apply runs_tokenize. cbn [list_ascii_of_string] in *.
  destruct (Ascii.eqb_spec c "/") as [->|Hne].
  - apply (runs_head "<" ("/"%char :: (list_ascii_of_string rest))
                     [tok "</" TokenType.EndBracket] (list_ascii_of_string rest) tr);
      [reflexivity | constructor | assumption].
  - apply (runs_head "<" (c :: (list_ascii_of_string rest))
                     [tok "<" TokenType.OpenBracket] (c :: (list_ascii_of_string rest)) tc);
      [reflexivity | | assumption].
    apply scan_open_bracket. simpl. now apply Ascii.eqb_neq.
Qed.

(** ** Tokenizing a lexeme again *)

(** X17: for every input, each token returned, other than a string
    literal, is what [tokenize] returns for its lexeme alone: the single
    token with the same lexeme and the same type. *)
Theorem lexeme_round_trip (source : string) :
  exists toks,
    tokenize source = Some toks
    /\ Forall (fun t => type t <> Some TokenType.StringLiteral ->
                        tokenize (value t) = Some [t]) toks.
Proof.
  apply tokenize_word_output.
  - intros v k H _. simpl in H.
    repeat (destruct H as [H|H]; [injection H as <- <-; reflexivity|]).
    contradiction.
  - intros v H. now elim H.
  - intros w Hw _. rewrite value_word_token. apply runs_tokenize.
    rewrite <- (app_nil_r (list_ascii_of_string w)).
    apply runs_word; [assumption | reflexivity | constructor].
Qed.
